(** * CamTech: pixel filters and layer compositing

    A shallow embedding of the capture-time pixel filter
    ([src/hooks/useCamera.js]), the export compositor
    ([src/utils/ExportEngine.js]) and the stroke bookkeeping of the drawing
    tool ([DrawTool.jsx]), with the properties the specification states
    about them.

    JavaScript numbers are IEEE-754 binary64 values: they are modelled by
    Rocq's primitive floats, so every arithmetic step of a filter is the
    one the engine performs.  Canvas contexts are modelled by the sequence
    of calls made on them. *)

From Stdlib Require Import ZArith Floats Lia List.
From Stdlib Require Import Sorted.
From stdpp Require Import gmap strings list.

Set Warnings "-inexact-float".

Local Open Scope Z_scope.

(** ** JavaScript values *)

Module JS.

(** A number, or [undefined] (a missing property or argument). *)
Inductive value :=
| Undefined
| Num (x : float).

(** [ToNumber]: [undefined] becomes [NaN]. *)
Definition ToNumber (v : value) : float :=
  match v with
  | Undefined => nan
  | Num x => x
  end.

(** [ToBoolean] on numbers: [0], [-0] and [NaN] are falsy. *)
Definition truthy (x : float) : bool :=
  negb (is_zero x || is_nan x).

(** [a || b] on numbers. *)
Definition or_else (a b : float) : float :=
  if truthy a then a else b.

(** [a || b] on strings that may be [undefined]: the empty string is
    falsy as well. *)
Definition str_or (a : option string) (b : string) : string :=
  match a with
  | Some s => if String.eqb s "" then b else s
  | None => b
  end.

(** [a === 'literal'] for a string that may be [undefined]. *)
Definition is_str (a : option string) (b : string) : bool :=
  match a with
  | Some s => String.eqb s b
  | None => false
  end.

(** The number read from an integer-valued slot. *)
Definition of_Z (z : Z) : float := PrimFloat.of_uint63 (Uint63.of_Z z).

(** Nearest integer to [m * 2^e], ties to the even neighbour. *)
Definition round_half_even (m : positive) (e : Z) : Z :=
  if 0 <=? e then Z.shiftl (Z.pos m) e
  else
    let q := Z.shiftr (Z.pos m) (- e) in
    let r := Z.pos m - Z.shiftl q (- e) in
    let h := Z.shiftl 1 (- e - 1) in
    if r <? h then q
    else if h <? r then q + 1
    else if Z.even q then q else q + 1.

(** [ToUint8Clamp] (ECMA-262 7.1.12), the conversion a
    [Uint8ClampedArray] applies on every store: [NaN] becomes [0], the
    value is clamped to [0,255] and rounded to the nearest integer, ties
    to even. *)
Definition ToUint8Clamp (x : float) : Z :=
  match Prim2SF x with
  | S754_nan => 0
  | S754_zero _ => 0
  | S754_infinity s => if s then 0 else 255
  | S754_finite s m e => if s then 0 else Z.min 255 (round_half_even m e)
  end.

(** [Math.PI]. *)
Definition PI : float := 0x1.921fb54442d18p+1%float.

(** The state of a promise.  [resolve] and [reject] only act on a
    pending promise: a settled one never changes again. *)
Inductive promise (A : Type) :=
| Pending
| Fulfilled (v : A)
| Rejected (e : string).
Arguments Pending {A}.
Arguments Fulfilled {A} v.
Arguments Rejected {A} e.

Definition resolve {A} (v : A) (p : promise A) : promise A :=
  match p with
  | Pending => Fulfilled v
  | _ => p
  end.

Definition reject {A} (e : string) (p : promise A) : promise A :=
  match p with
  | Pending => Rejected e
  | _ => p
  end.


End JS.

(** ** The pixel filter of [useCamera.js] *)

Module Camera.

(** CSS filter strings of the live preview. *)
Definition FILTER_STYLES : gmap string string :=
  list_to_map [
    ("original", "none");
    ("warm", "sepia(0.3) saturate(1.4) brightness(1.1)");
    ("cool", "saturate(0.9) hue-rotate(10deg) brightness(1.05)");
    ("vibrant", "saturate(1.6) contrast(1.1) brightness(1.05)");
    ("vintage", "sepia(0.4) contrast(0.9) brightness(0.95) saturate(0.8)");
    ("pastel", "saturate(0.7) brightness(1.15) contrast(0.9)");
    ("mono", "grayscale(1) contrast(1.1)");
    ("soft", "brightness(1.08) contrast(0.92) saturate(0.95)");
    ("crisp", "contrast(1.15) saturate(1.1) brightness(1.02)");
    ("fade", "contrast(0.85) saturate(0.75) brightness(1.1)")
  ].

(** [getFilterStyle]: [FILTER_STYLES[selectedFilter] || 'none']. *)
Definition getFilterStyle (selectedFilter : string) : string :=
  JS.str_or (FILTER_STYLES !! selectedFilter) "none".

(** *** Running code over an [ImageData] buffer

    [data] is the [Uint8ClampedArray] of the image, one slot per channel
    (R, G, B, A, R, G, ...).  [fault] is the number of stores the
    platform still completes before it raises an exception; [None] is a
    platform that never faults.  The source has no [throw] of its own:
    the counter is how a fault in the middle of the buffer is given to
    the [try]/[catch] of [captureFrame].  The buffer only changes at a
    store, so a fault anywhere in the loop is a fault after some number
    of completed stores. *)
Record pxState := { data : list Z; fault : option nat }.

Inductive outcome (A : Type) :=
| Normal (a : A)
| Thrown.
Arguments Normal {A} a.
Arguments Thrown {A}.

Definition Px (A : Type) : Type := pxState -> outcome A * pxState.

Definition ret {A} (a : A) : Px A := fun s => (Normal a, s).

Definition bind {A B} (m : Px A) (k : A -> Px B) : Px B :=
  fun s =>
    match m s with
    | (Normal a, s') => k a s'
    | (Thrown, s') => (Thrown, s')
    end.

Declare Scope px_scope.
Delimit Scope px_scope with px.
Notation "x <- m ;; k" := (bind m (fun x => k))
  (at level 100, m at next level, right associativity) : px_scope.
Notation "m ;;; k" := (bind m (fun _ => k))
  (at level 100, right associativity) : px_scope.

(** [data.length] *)
Definition len : Px nat := fun s => (Normal (length (data s)), s).

(** [data[i]] as a number; a slot past the end reads [undefined], which
    arithmetic turns into [NaN]. *)
Definition load (i : nat) : Px float :=
  fun s =>
    (Normal (match data s !! i with
             | Some z => JS.of_Z z
             | None => nan
             end), s).

(** [data[i] = v]; a store past the end of a typed array is ignored. *)
Definition store (i : nat) (v : float) : Px unit :=
  fun s =>
    match fault s with
    | Some O => (Thrown, s)
    | Some (S k) =>
        (Normal tt, {| data := <[i := JS.ToUint8Clamp v]> (data s); fault := Some k |})
    | None =>
        (Normal tt, {| data := <[i := JS.ToUint8Clamp v]> (data s); fault := None |})
    end.

(** [for (let i = start; i < n; i += 4) body(i)]; [fuel] bounds the
    number of iterations, and [n] of them are always enough. *)
Fixpoint for4 (fuel : nat) (i n : nat) (body : nat -> Px unit) : Px unit :=
  match fuel with
  | O => ret tt
  | S fuel' =>
      if (i <? n)%nat
      then bind (body i) (fun _ => for4 fuel' (i + 4)%nat n body)
      else ret tt
  end.

Section Filters.
Local Open Scope float_scope.
Local Open Scope px_scope.

(** [const clamp = (v) => v < 0 ? 0 : v > 255 ? 255 : v] *)
Definition clamp (v : float) : float :=
  if v <? 0 then 0 else if 255 <? v then 255 else v.

Definition mono_pixel (i : nat) : Px unit :=
  d0 <- load i ;;
  d1 <- load (i + 1) ;;
  d2 <- load (i + 2) ;;
  let gray := d0 * 0.299 + d1 * 0.587 + d2 * 0.114 in
  let contrasted := (gray - 128) * 1.1 + 128 in
  let final := clamp contrasted in
  store i final ;;;
  store (i + 1) final ;;;
  store (i + 2) final.

Definition warm_pixel (i : nat) : Px unit :=
  r <- load i ;;
  g <- load (i + 1) ;;
  b <- load (i + 2) ;;
  let gray := (r + g + b) / 3 in
  let r := gray + (r - gray) * 1.15 in
  let g := gray + (g - gray) * 1.1 in
  let b := gray + (b - gray) * 0.9 in
  let r := r + 15 in
  let g := g + 8 in
  let b := b - 20 in
  let r := r * 1.08 in
  let g := g * 1.05 in
  let b := b * 1.0 in
  store i (clamp r) ;;;
  store (i + 1) (clamp g) ;;;
  store (i + 2) (clamp b).

Definition cool_pixel (i : nat) : Px unit :=
  r <- load i ;;
  g <- load (i + 1) ;;
  b <- load (i + 2) ;;
  let gray := (r + g + b) / 3 in
  let r := gray + (r - gray) * 0.9 in
  let g := gray + (g - gray) * 1.0 in
  let b := gray + (b - gray) * 1.1 in
  let r := r - 10 in
  let g := g + 5 in
  let b := b + 20 in
  let r := r * 1.02 in
  let g := g * 1.05 in
  let b := b * 1.08 in
  store i (clamp r) ;;;
  store (i + 1) (clamp g) ;;;
  store (i + 2) (clamp b).

Definition vibrant_pixel (i : nat) : Px unit :=
  r <- load i ;;
  g <- load (i + 1) ;;
  b <- load (i + 2) ;;
  let gray := (r + g + b) / 3 in
  let r := gray + (r - gray) * 1.5 in
  let g := gray + (g - gray) * 1.5 in
  let b := gray + (b - gray) * 1.5 in
  let r := (r - 128) * 1.1 + 128 in
  let g := (g - 128) * 1.1 + 128 in
  let b := (b - 128) * 1.1 + 128 in
  let r := r * 1.03 in
  let g := g * 1.03 in
  let b := b * 1.03 in
  store i (clamp r) ;;;
  store (i + 1) (clamp g) ;;;
  store (i + 2) (clamp b).

Definition vintage_pixel (i : nat) : Px unit :=
  r <- load i ;;
  g <- load (i + 1) ;;
  b <- load (i + 2) ;;
  let gray := (r + g + b) / 3 in
  let r := gray + (r - gray) * 0.7 in
  let g := gray + (g - gray) * 0.7 in
  let b := gray + (b - gray) * 0.7 in
  let r := r * 1.1 + 10 in
  let g := g * 1.0 + 5 in
  let b := b * 0.85 - 5 in
  let r := (r - 128) * 0.85 + 128 in
  let g := (g - 128) * 0.85 + 128 in
  let b := (b - 128) * 0.85 + 128 in
  let r := r + 15 in
  let g := g + 10 in
  let b := b + 5 in
  store i (clamp r) ;;;
  store (i + 1) (clamp g) ;;;
  store (i + 2) (clamp b).

(** [applyPixelFilter(imageData, filterName)]: the [switch] on the
    filter name; every name without a [case] takes the [default]
    branch, which touches nothing. *)
Definition applyPixelFilter (filterName : string) : Px unit :=
  n <- len ;;
  if String.eqb filterName "mono" then for4 n 0 n mono_pixel
  else if String.eqb filterName "warm" then for4 n 0 n warm_pixel
  else if String.eqb filterName "cool" then for4 n 0 n cool_pixel
  else if String.eqb filterName "vibrant" then for4 n 0 n vibrant_pixel
  else if String.eqb filterName "vintage" then for4 n 0 n vintage_pixel
  else ret tt.

End Filters.

(** The buffer a fault-free call leaves behind. *)
Definition filtered (filterName : string) (pixels : list Z) : list Z :=
  data (snd (applyPixelFilter filterName {| data := pixels; fault := None |})).

(** Whether a call raises under the given fault counter. *)
Definition throws (filterName : string) (pixels : list Z) (f : option nat) : bool :=
  match fst (applyPixelFilter filterName {| data := pixels; fault := f |}) with
  | Normal _ => false
  | Thrown => true
  end.

(** Step 2 of [captureFrame], on the canvas pixels [frame] that step 1
    drew: [getImageData] copies them, the filter mutates the copy, and
    only [putImageData] writes it back; the [catch] logs a warning and
    leaves the canvas as it was.  The result is the content of the
    canvas that [toDataURL] then encodes. *)
Definition captureFrame_pixels (frame : list Z) (selectedFilter : string)
    (f : option nat) : list Z :=
  if negb (String.eqb selectedFilter "original") then
    let imageData := {| data := frame; fault := f |} in
    match applyPixelFilter selectedFilter imageData with
    | (Normal _, s) => data s
    | (Thrown, _) => frame
    end
  else frame.

(** [captureFrame]: [null] without a video or canvas element, else the
    data URL of the final canvas pixels. *)
Definition captureFrame {url : Type} (toDataURL : list Z -> url)
    (refsReady : bool) (frame : list Z) (selectedFilter : string)
    (f : option nat) : option url :=
  if negb refsReady then None
  else Some (toDataURL (captureFrame_pixels frame selectedFilter f)).

(** Channels are bytes. *)
Definition channel_ok (c : Z) : Prop := 0 <= c <= 255.

End Camera.

(** ** The 2D canvas context, as the calls made on it *)

Module Canvas.

(** [ctx.font]: the template [`${weight} ${size}px ${family}`], kept as
    its three parts (the weight is empty when the template has none). *)
Record font := { weight : string; sizePx : float; family : string }.

Inductive cmd :=
| DrawImage
| Save
| Restore
| Translate (tx ty : float)
| Rotate (angle : float)
| BeginPath
| MoveTo (px py : float)
| LineTo (px py : float)
| RoundRect (rx ry rw rh radius : float)
| Stroke
| Fill
| FillRect (rx ry rw rh : float)
| StrokeRect (rx ry rw rh : float)
| FillText (text : string) (tx ty : float)
| StrokeText (text : string) (tx ty : float)
| SetStrokeStyle (c : string)
| SetFillStyle (c : string)
| SetLineWidth (w : float)
| SetLineCap (v : string)
| SetLineJoin (v : string)
| SetFont (f : font)
| SetTextAlign (v : string)
| SetTextBaseline (v : string)
| SetShadowColor (c : string)
| SetShadowBlur (v : float)
| SetShadowOffsetX (v : float)
| SetShadowOffsetY (v : float).

(** The part of the drawing state that decides the colour and width of
    what is painted; [save] and [restore] push and pop it. *)
Record gstate := { fillStyle : string; strokeStyle : string; lineWidth : float }.

Definition initial : gstate :=
  {| fillStyle := "#000000"; strokeStyle := "#000000"; lineWidth := 1%float |}.

Inductive seg :=
| SegMove (px py : float)
| SegLine (px py : float)
| SegRoundRect (rx ry rw rh radius : float).

(** What reaches the raster, in painting order (later is above). *)
Inductive paint :=
| PaintImage
| PaintStroke (color : string) (width : float) (path : list seg)
| PaintFill (color : string) (path : list seg)
| PaintFillRect (color : string)
| PaintStrokeRect (color : string) (width : float)
| PaintFillText (ink : string) (text : string)
| PaintStrokeText (color : string) (width : float) (text : string).

(** The context as a state machine over the calls: the current state,
    the stack of saved states and the current path (which [save] and
    [restore] leave alone). *)
Fixpoint paints (st : gstate) (stack : list gstate) (path : list seg)
    (cmds : list cmd) : list paint :=
  match cmds with
  | [] => []
  | c :: cmds' =>
      match c with
      | DrawImage => PaintImage :: paints st stack path cmds'
      | Save => paints st (st :: stack) path cmds'
      | Restore =>
          match stack with
          | st' :: stack' => paints st' stack' path cmds'
          | [] => paints st [] path cmds'
          end
      | BeginPath => paints st stack [] cmds'
      | MoveTo px py => paints st stack (path ++ [SegMove px py]) cmds'
      | LineTo px py => paints st stack (path ++ [SegLine px py]) cmds'
      | RoundRect rx ry rw rh r =>
          paints st stack (path ++ [SegRoundRect rx ry rw rh r]) cmds'
      | Stroke =>
          PaintStroke (strokeStyle st) (lineWidth st) path :: paints st stack path cmds'
      | Fill => PaintFill (fillStyle st) path :: paints st stack path cmds'
      | FillRect _ _ _ _ => PaintFillRect (fillStyle st) :: paints st stack path cmds'
      | StrokeRect _ _ _ _ =>
          PaintStrokeRect (strokeStyle st) (lineWidth st) :: paints st stack path cmds'
      | FillText text _ _ => PaintFillText (fillStyle st) text :: paints st stack path cmds'
      | StrokeText text _ _ =>
          PaintStrokeText (strokeStyle st) (lineWidth st) text :: paints st stack path cmds'
      | SetStrokeStyle c =>
          paints {| fillStyle := fillStyle st; strokeStyle := c; lineWidth := lineWidth st |}
            stack path cmds'
      | SetFillStyle c =>
          paints {| fillStyle := c; strokeStyle := strokeStyle st; lineWidth := lineWidth st |}
            stack path cmds'
      | SetLineWidth w =>
          paints {| fillStyle := fillStyle st; strokeStyle := strokeStyle st; lineWidth := w |}
            stack path cmds'
      | _ => paints st stack path cmds'
      end
  end.

(** The ink of every filled text, in painting order. *)
Definition text_inks (ps : list paint) : list string :=
  flat_map (fun p => match p with PaintFillText ink _ => [ink] | _ => [] end) ps.

End Canvas.

(** ** [ExportEngine.js] *)

Module ExportEngine.
Import Canvas.

Record point := { p_x : float; p_y : float }.

(** A stroke: its id is the [Date.now()] of its first point. *)
Record stroke := {
  stroke_id : Z;
  stroke_color : string;
  stroke_size : string;
  points : list point
}.

(** Every field of a style or of [data] may be missing. *)
Record textStyle := {
  fontId : option string;
  color : option string;
  textAlign : option string;
  styleMode : option string
}.

Record elementData := {
  stickerId : option string;
  emojiChar : option string;
  text : option string;
  style : option textStyle
}.

Record element := {
  el_id : string;
  el_type : string;
  el_x : float;
  el_y : float;
  el_scale : float;
  el_rotation : float;
  el_data : option elementData
}.

(** Brush sizes (the comment in the source: must match DrawTool.jsx). *)
Definition BRUSH_SIZES : gmap string float :=
  list_to_map [("small", 4%float); ("medium", 8%float)].

Definition FONTS : gmap string string :=
  list_to_map [
    ("classic", "-apple-system, BlinkMacSystemFont, sans-serif");
    ("bold", "-apple-system, BlinkMacSystemFont, sans-serif");
    ("serif", "Georgia, Times New Roman, serif");
    ("mono", "SF Mono, Menlo, monospace");
    ("condensed", "Arial Narrow, sans-serif");
    ("script", "Snell Roundhand, cursive")
  ].

(** A property read from a table: [undefined] when the key is absent. *)
Definition num_prop (t : gmap string float) (k : string) : float :=
  match t !! k with Some v => v | None => nan end.

Section Draw.
Local Open Scope float_scope.

(** [ctx.measureText(text).width] under the current font. *)
Variable measureText : font -> string -> float.

(** [(BRUSH_SIZES[stroke.size] || BRUSH_SIZES.small) * scale] *)
Definition strokeLineWidth (s : stroke) (scale : float) : float :=
  JS.or_else (num_prop BRUSH_SIZES (stroke_size s)) (num_prop BRUSH_SIZES "small") * scale.

(** The body of the [forEach] of [drawStrokes]. *)
Definition drawStroke (scale : float) (s : stroke) : list cmd :=
  if (length (points s) <? 2)%nat then []
  else
    [BeginPath;
     SetStrokeStyle (stroke_color s);
     SetLineWidth (strokeLineWidth s scale);
     SetLineCap "round";
     SetLineJoin "round"]
    ++ match points s with
       | p0 :: rest =>
           MoveTo (p_x p0 * scale) (p_y p0 * scale)
           :: map (fun p => LineTo (p_x p * scale) (p_y p * scale)) rest
       | [] => []
       end
    ++ [Stroke].

Definition drawStrokes (strokes : list stroke) (scale : float) : list cmd :=
  flat_map (drawStroke scale) strokes.

Definition drawSticker (el : element) (scale : float) : list cmd :=
  let x := el_x el * scale in
  let y := el_y el * scale in
  let size := 80 * el_scale el * scale in
  [Save;
   Translate x y;
   Rotate ((el_rotation el * JS.PI) / 180);
   SetFillStyle "rgba(255, 255, 255, 0.2)";
   FillRect (- size / 2) (- size / 2) size size;
   SetStrokeStyle "rgba(255, 255, 255, 0.5)";
   SetLineWidth (2 * scale);
   StrokeRect (- size / 2) (- size / 2) size size;
   SetFillStyle "#fff";
   SetFont {| weight := ""; sizePx := 12 * scale; family := "-apple-system, sans-serif" |};
   SetTextAlign "center";
   SetTextBaseline "middle";
   FillText (JS.str_or (d ← el_data el; stickerId d) "sticker") 0 0;
   Restore].

(** The default glyph of the source is U+1F60A, given by its UTF-8
    bytes. *)
Definition default_emoji : string :=
  String (Ascii.ascii_of_nat 240) (String (Ascii.ascii_of_nat 159)
    (String (Ascii.ascii_of_nat 152) (String (Ascii.ascii_of_nat 138) EmptyString))).

Definition drawEmoji (el : element) (scale : float) : list cmd :=
  let x := el_x el * scale in
  let y := el_y el * scale in
  let fontSize := 48 * el_scale el * scale in
  [Save;
   Translate x y;
   Rotate ((el_rotation el * JS.PI) / 180);
   SetFont {| weight := ""; sizePx := fontSize; family := "-apple-system, sans-serif" |};
   SetTextAlign "center";
   SetTextBaseline "middle";
   FillText (JS.str_or (d ← el_data el; emojiChar d) default_emoji) 0 0;
   Restore].

(** [element.data?.style || {}] *)
Definition style_of (el : element) : textStyle :=
  match d ← el_data el; style d with
  | Some st => st
  | None => {| fontId := None; color := None; textAlign := None; styleMode := None |}
  end.

(** [(color === '#FFFFFF' || color === '#FFCC00') ? '#000' : '#FFF'] *)
Definition contrast_ink (color : string) : string :=
  if String.eqb color "#FFFFFF" || String.eqb color "#FFCC00" then "#000" else "#FFF".

Definition drawText (el : element) (scale : float) : list cmd :=
  let x := el_x el * scale in
  let y := el_y el * scale in
  let style := style_of el in
  let text := JS.str_or (d ← el_data el; text d) "" in
  let fontFamily :=
    JS.str_or (f ← fontId style; FONTS !! f) (JS.str_or (FONTS !! "classic") "") in
  let fontWeight := if JS.is_str (fontId style) "bold" then "700" else "400" in
  let fontSize := 24 * el_scale el * scale in
  let color := JS.str_or (color style) "#fff" in
  let fnt := {| weight := fontWeight; sizePx := fontSize; family := fontFamily |} in
  let textWidth := measureText fnt text in
  let textHeight := fontSize * 1.2 in
  [Save;
   Translate x y;
   Rotate ((el_rotation el * JS.PI) / 180);
   SetFont fnt;
   SetTextAlign (JS.str_or (textAlign style) "center");
   SetTextBaseline "middle"]
  ++ (if JS.is_str (styleMode style) "stroke" then
        [SetStrokeStyle color;
         SetLineWidth (2 * scale);
         StrokeText text 0 0]
      else if JS.is_str (styleMode style) "background" then
        let padding := 8 * scale in
        [SetFillStyle color;
         BeginPath;
         RoundRect (- textWidth / 2 - padding) (- textHeight / 2)
           (textWidth + padding * 2) textHeight (4 * scale);
         Fill;
         SetFillStyle (contrast_ink color);
         FillText text 0 0]
      else if JS.is_str (styleMode style) "highlight" then
        let padding := 12 * scale in
        [SetFillStyle color;
         BeginPath;
         RoundRect (- textWidth / 2 - padding) (- textHeight / 2 - padding / 2)
           (textWidth + padding * 2) (textHeight + padding) (8 * scale);
         Fill;
         SetFillStyle (contrast_ink color);
         FillText text 0 0]
      else
        [SetShadowColor "rgba(0, 0, 0, 0.5)";
         SetShadowBlur (3 * scale);
         SetShadowOffsetX 0;
         SetShadowOffsetY (1 * scale);
         SetFillStyle color;
         FillText text 0 0])
  ++ [Restore].

End Draw.

(** *** [exportImage] *)

(** The composition request; [displayWidth] and [displayHeight] are
    whatever the caller passed, possibly [undefined]. *)
Record request := {
  baseCanvas_width : float;
  baseCanvas_height : float;
  strokes : list stroke;
  elements : list element;
  displayWidth : JS.value;
  displayHeight : JS.value
}.

(** [const dpr = width / displayWidth || 1] *)
Definition dpr (width : float) (displayWidth : JS.value) : float :=
  JS.or_else (width / JS.ToNumber displayWidth)%float 1%float.

(** [const order = { sticker: 0, emoji: 1, text: 2 }] *)
Definition order : gmap string Z :=
  list_to_map [("sticker", 0); ("emoji", 1); ("text", 2)].

(** [order[type] || 0] *)
Definition priority (type : string) : Z :=
  match order !! type with
  | Some n => if n =? 0 then 0 else n
  | None => 0
  end.

(** The comparator given to [sort]. *)
Definition compareElements (a b : element) : Z :=
  priority (el_type a) - priority (el_type b).

(** [Array.prototype.sort] is stable: an element moves in front of
    another only when the comparator is negative.  Insertion from the
    right is one such sort. *)
Fixpoint sort_insert {A} (cmp : A -> A -> Z) (a : A) (l : list A) : list A :=
  match l with
  | [] => [a]
  | b :: l' => if cmp a b <=? 0 then a :: l else b :: sort_insert cmp a l'
  end.

Fixpoint sort {A} (cmp : A -> A -> Z) (l : list A) : list A :=
  match l with
  | [] => []
  | a :: l' => sort_insert cmp a (sort cmp l')
  end.

Definition sortedElements (elements : list element) : list element :=
  sort compareElements elements.

(** The settled value of a successful export. [blob] is the argument of
    the [toBlob] callback, which may be [null]. *)
Record exportResult (Blob : Type) := {
  dataURL : string;
  blob : option Blob
}.
Arguments dataURL {Blob} _.
Arguments blob {Blob} _.

Section Exporting.
Variable measureText : font -> string -> float.

(** The [forEach] over the sorted elements. *)
Definition drawElement (scale : float) (el : element) : list cmd :=
  if String.eqb (el_type el) "sticker" then drawSticker el scale
  else if String.eqb (el_type el) "emoji" then drawEmoji el scale
  else if String.eqb (el_type el) "text" then drawText measureText el scale
  else [].

(** The calls [exportImage] makes on the context of the export canvas,
    in order. *)
Definition exportImage_calls (req : request) : list cmd :=
  let scale := dpr (baseCanvas_width req) (displayWidth req) in
  [DrawImage]
  ++ (if (0 <? length (strokes req))%nat then drawStrokes (strokes req) scale else [])
  ++ flat_map (drawElement scale) (sortedElements (elements req)).

(** The encoders of the platform: [toDataURL] returns a string or
    raises, [toBlob] calls back once with a blob or with [null]. *)
Variable Blob : Type.
Variable toDataURL : list cmd -> string + string.
Variable toBlob : list cmd -> option Blob.

(** The callback given to [toBlob]. *)
Definition toBlob_callback (url : string) (b : option Blob)
    (p : JS.promise (exportResult Blob)) : JS.promise (exportResult Blob) :=
  match b with
  | Some _ => JS.resolve {| dataURL := url; blob := b |} p
  | None => JS.reject "Failed to create image blob" p
  end.

(** The promise [exportImage] returns, once the platform has called
    back.  An exception in the body of an [async] function rejects its
    promise. *)
Definition exportImage (req : request) : JS.promise (exportResult Blob) :=
  let calls := exportImage_calls req in
  match toDataURL calls with
  | inr err => JS.reject err JS.Pending
  | inl url => toBlob_callback url (toBlob calls) JS.Pending
  end.

End Exporting.

End ExportEngine.

(** ** [DrawTool.jsx] *)

Module DrawTool.
Import ExportEngine.

(** Brush sizes (the comment in the source: increased difference for
    visibility). *)
Definition BRUSH_SIZES : gmap string float :=
  list_to_map [("small", 4%float); ("medium", 16%float)].

(** [ctx.lineWidth = BRUSH_SIZES[stroke.size] || BRUSH_SIZES.small] in
    [redrawCanvas]. *)
Definition strokeLineWidth (s : stroke) : float :=
  JS.or_else (num_prop BRUSH_SIZES (stroke_size s)) (num_prop BRUSH_SIZES "small").

(** The component state, with the [strokes] and [isActive] the parent
    holds for it ([onStrokesChange] is the parent's [setStrokes],
    [onExit] clears its draw mode).  Every handler is taken after the
    render that followed the previous event, so that it sees the state
    that event left. *)
Record state := {
  isActive : bool;
  isDrawing : bool;
  currentStroke : option stroke;
  strokeColor : string;
  brushSize : string;
  strokes : list stroke
}.

Definition initial : state :=
  {| isActive := false; isDrawing := false; currentStroke := None;
     strokeColor := "#FFFFFF"; brushSize := "small"; strokes := [] |}.

(** [handleDrawStart]; [touches] is [e.touches.length] (at most 1 for a
    pointer or mouse event), [pos] the result of [getPosition], [now]
    the value of [Date.now()]. *)
Definition handleDrawStart (touches : nat) (pos : option point) (now : Z)
    (s : state) : state :=
  if negb (isActive s) then s
  else if (1 <? touches)%nat then s
  else match pos with
       | None => s
       | Some p =>
           {| isActive := isActive s;
              isDrawing := true;
              currentStroke :=
                Some {| stroke_id := now; stroke_color := strokeColor s;
                        stroke_size := brushSize s; points := [p] |};
              strokeColor := strokeColor s;
              brushSize := brushSize s;
              strokes := strokes s |}
       end.

Definition handleDrawMove (touches : nat) (pos : option point) (s : state) : state :=
  if negb (isDrawing s) || negb (isActive s) then s
  else if (1 <? touches)%nat then
    {| isActive := isActive s; isDrawing := false; currentStroke := None;
       strokeColor := strokeColor s; brushSize := brushSize s; strokes := strokes s |}
  else match pos with
       | None => s
       | Some p =>
           {| isActive := isActive s;
              isDrawing := isDrawing s;
              currentStroke :=
                match currentStroke s with
                | None => None
                | Some prev =>
                    Some {| stroke_id := stroke_id prev; stroke_color := stroke_color prev;
                            stroke_size := stroke_size prev;
                            points := points prev ++ [p] |}
                end;
              strokeColor := strokeColor s;
              brushSize := brushSize s;
              strokes := strokes s |}
       end.

Definition handleDrawEnd (s : state) : state :=
  match isDrawing s, currentStroke s with
  | true, Some cur =>
      {| isActive := isActive s;
         isDrawing := false;
         currentStroke := None;
         strokeColor := strokeColor s;
         brushSize := brushSize s;
         strokes :=
           (* Only save strokes with at least 2 points *)
           if (2 <=? length (points cur))%nat then strokes s ++ [cur] else strokes s |}
  | _, _ =>
      {| isActive := isActive s; isDrawing := false; currentStroke := currentStroke s;
         strokeColor := strokeColor s; brushSize := brushSize s; strokes := strokes s |}
  end.

(** [strokes.slice(0, -1)] when there is a stroke. *)
Definition handleUndo (s : state) : state :=
  {| isActive := isActive s; isDrawing := isDrawing s; currentStroke := currentStroke s;
     strokeColor := strokeColor s; brushSize := brushSize s;
     strokes := if (0 <? length (strokes s))%nat
                then take (length (strokes s) - 1) (strokes s) else strokes s |}.

Definition handleClear (s : state) : state :=
  {| isActive := isActive s; isDrawing := isDrawing s; currentStroke := currentStroke s;
     strokeColor := strokeColor s; brushSize := brushSize s; strokes := [] |}.

Definition handleToggleBrushSize (s : state) : state :=
  {| isActive := isActive s; isDrawing := isDrawing s; currentStroke := currentStroke s;
     strokeColor := strokeColor s;
     brushSize := if String.eqb (brushSize s) "small" then "medium" else "small";
     strokes := strokes s |}.

Definition handleDone (s : state) : state :=
  {| isActive := false;
     isDrawing := false;
     currentStroke := None;
     strokeColor := "#FFFFFF";
     brushSize := "small";
     strokes :=
       match currentStroke s with
       | Some cur =>
           if (2 <=? length (points cur))%nat then strokes s ++ [cur] else strokes s
       | None => strokes s
       end |}.

(** What the user and the parent can do to the component. *)
Inductive event :=
| EnterDrawMode
| DrawStart (touches : nat) (pos : option point) (now : Z)
| DrawMove (touches : nat) (pos : option point)
| DrawEnd
| Undo
| Clear
| ToggleBrushSize
| PickColor (c : string)
| Done.

Definition step (s : state) (e : event) : state :=
  match e with
  | EnterDrawMode =>
      {| isActive := true; isDrawing := isDrawing s; currentStroke := currentStroke s;
         strokeColor := strokeColor s; brushSize := brushSize s; strokes := strokes s |}
  | DrawStart t p now => handleDrawStart t p now s
  | DrawMove t p => handleDrawMove t p s
  | DrawEnd => handleDrawEnd s
  | Undo => handleUndo s
  | Clear => handleClear s
  | ToggleBrushSize => handleToggleBrushSize s
  | PickColor c =>
      {| isActive := isActive s; isDrawing := isDrawing s; currentStroke := currentStroke s;
         strokeColor := c; brushSize := brushSize s; strokes := strokes s |}
  | Done => handleDone s
  end.

Definition run (events : list event) (s : state) : state :=
  fold_left step events s.


End DrawTool.

(** ** [Math.min], [Math.max] and the pinch gestures *)

Module JSMath.
Local Open Scope float_scope.

(** [Math.min(a, b)]: [NaN] if either is [NaN], and [-0] is below [+0]. *)
Definition min (a b : float) : float :=
  if is_nan a || is_nan b then nan
  else if a <? b then a
  else if b <? a then b
  else if get_sign a then a else b.

(** [Math.max(a, b)]: [NaN] if either is [NaN], and [+0] is above [-0]. *)
Definition max (a b : float) : float :=
  if is_nan a || is_nan b then nan
  else if a <? b then b
  else if b <? a then a
  else if get_sign a then b else a.

End JSMath.

(** The zoom of [useCamera.js]. *)
Module Zoom.
Local Open Scope float_scope.

Record zoomRange := { zmin : float; zmax : float }.


Record state := {
  zoomSupported : bool;
  hasTrack : bool;
  range : zoomRange;
  zoomLevel : float
}.



End Zoom.

(** The pinch of [DraggableElement.jsx]. *)
Module DraggableElement.
Local Open Scope float_scope.

(** [getTouchDistance] of two touch points. *)
Definition getTouchDistance (x0 y0 x1 y1 : float) : float :=
  let dx := x0 - x1 in
  let dy := y0 - y1 in
  sqrt (dx * dx + dy * dy).

(** The [scale] that [handleDragMove] gives to [onUpdate] while
    pinching. *)
Definition pinchScale (initialScale initialDistance currentDistance : float) : float :=
  let scaleFactor := currentDistance / initialDistance in
  JSMath.max 0.3 (JSMath.min 3 (initialScale * scaleFactor)).

End DraggableElement.

(** ** Camera controls: [useCamera.js] and [CameraLayer.jsx] *)

Module Controls.

(** [FLASH_MODES] of [useCamera.js]. *)
Definition FLASH_MODES : list string := ["off"; "on"; "auto"; "torch"].

(** [Array.prototype.findIndex]: the first index that satisfies the
    predicate, or -1. *)
Fixpoint findIndex_from {A} (p : A -> bool) (l : list A) (i : Z) : Z :=
  match l with
  | [] => -1
  | y :: l' => if p y then i else findIndex_from p l' (i + 1)
  end.

Definition findIndex {A} (p : A -> bool) (l : list A) : Z := findIndex_from p l 0.

(** [Array.prototype.indexOf] on strings. *)
Definition indexOf (x : string) (l : list string) : Z :=
  findIndex (fun y => String.eqb y x) l.

(** [l[n]]: [undefined] outside the array. *)
Definition at_index {A} (l : list A) (n : Z) : option A :=
  if n <? 0 then None else l !! Z.to_nat n.

(** The updater [cycleFlash] gives to [setFlashMode]; [%] is the
    remainder of the truncated division. *)
Definition cycleFlash (prev : string) : option string :=
  let currentIndex := indexOf prev FLASH_MODES in
  let nextIndex := Z.rem (currentIndex + 1) (Z.of_nat (length FLASH_MODES)) in
  at_index FLASH_MODES nextIndex.

(** The updater [flipCamera] gives to [setFacingMode]. *)
Definition flipCamera (prev : string) : string :=
  if String.eqb prev "environment" then "user" else "environment".

(** [setFilter(filterId)], as the new [selectedFilter]: the id is taken
    when [FILTER_STYLES[filterId]] is truthy. *)
Definition setFilter (filterId : string) (selectedFilter : string) : string :=
  match Camera.FILTER_STYLES !! filterId with
  | Some style => if String.eqb style "" then selectedFilter else filterId
  | None => selectedFilter
  end.

(** [FILTERS] of [CameraLayer.jsx]. *)
Record filterDef := { filter_id : string; filter_label : string; filter_color : string }.

Definition FILTERS : list filterDef := [
  {| filter_id := "original"; filter_label := "Original"; filter_color := "#888" |};
  {| filter_id := "warm"; filter_label := "Warm"; filter_color := "#e8a87c" |};
  {| filter_id := "cool"; filter_label := "Cool"; filter_color := "#7ec8e8" |};
  {| filter_id := "vibrant"; filter_label := "Vibrant"; filter_color := "#c77dff" |};
  {| filter_id := "vintage"; filter_label := "Vintage"; filter_color := "#d4a574" |};
  {| filter_id := "pastel"; filter_label := "Pastel"; filter_color := "#f8c8dc" |};
  {| filter_id := "mono"; filter_label := "Mono"; filter_color := "#666" |};
  {| filter_id := "soft"; filter_label := "Soft"; filter_color := "#d4c8b8" |};
  {| filter_id := "crisp"; filter_label := "Crisp"; filter_color := "#94b8d4" |};
  {| filter_id := "fade"; filter_label := "Fade"; filter_color := "#a8a0b4" |}
].

(** The filter button: the filter after the selected one in [FILTERS],
    [undefined] if the index were outside. *)
Definition nextFilter (selectedFilter : string) : option filterDef :=
  let currentIndex := findIndex (fun f => String.eqb (filter_id f) selectedFilter) FILTERS in
  let nextIndex := Z.rem (currentIndex + 1) (Z.of_nat (length FILTERS)) in
  at_index FILTERS nextIndex.

(** One press of the filter button: the new selection and the label of
    the toast; [None] stands for the [TypeError] of reading [id] of
    [undefined]. *)
Definition pressFilterButton (selectedFilter : string) : option (string * string) :=
  match nextFilter selectedFilter with
  | Some f => Some (setFilter (filter_id f) selectedFilter, filter_label f)
  | None => None
  end.

End Controls.

(** ** The modes of the application ([App.jsx]) *)

Module App.

Record state := {
  mode : string;
  capturedImage : option string;
  showSettings : bool;
  toolPosition : string
}.

Definition initial : state :=
  {| mode := "CAMERA"; capturedImage := None; showSettings := false;
     toolPosition := "right" |}.

(** [handleCapture(imageData)]: [null] and the empty string are falsy. *)
Definition handleCapture (imageData : option string) (s : state) : state :=
  match imageData with
  | None => s
  | Some url =>
      if String.eqb url "" then s
      else {| mode := "EDITOR"; capturedImage := Some url;
              showSettings := showSettings s; toolPosition := toolPosition s |}
  end.

Definition handleRetake (s : state) : state :=
  {| mode := "CAMERA"; capturedImage := None;
     showSettings := showSettings s; toolPosition := toolPosition s |}.

Definition handleDone (s : state) : state :=
  {| mode := "CAMERA"; capturedImage := None;
     showSettings := showSettings s; toolPosition := toolPosition s |}.

Definition handleOpenSettings (s : state) : state :=
  {| mode := mode s; capturedImage := capturedImage s;
     showSettings := true; toolPosition := toolPosition s |}.

Definition handleCloseSettings (s : state) : state :=
  {| mode := mode s; capturedImage := capturedImage s;
     showSettings := false; toolPosition := toolPosition s |}.

Definition handleToolPositionChange (position : string) (s : state) : state :=
  {| mode := mode s; capturedImage := capturedImage s;
     showSettings := showSettings s; toolPosition := position |}.

Inductive event :=
| Capture (imageData : option string)
| Retake
| Done
| OpenSettings
| CloseSettings
| ToolPositionChange (position : string).

Definition step (s : state) (e : event) : state :=
  match e with
  | Capture d => handleCapture d s
  | Retake => handleRetake s
  | Done => handleDone s
  | OpenSettings => handleOpenSettings s
  | CloseSettings => handleCloseSettings s
  | ToolPositionChange p => handleToolPositionChange p s
  end.

Definition run (events : list event) (s : state) : state := fold_left step events s.

(** What is rendered: [mode === 'CAMERA' && <CameraLayer/>] and
    [mode === 'EDITOR' && capturedImage && <EditorLayer/>]. *)
Definition showsCamera (s : state) : bool := String.eqb (mode s) "CAMERA".

Definition showsEditor (s : state) : bool :=
  String.eqb (mode s) "EDITOR" &&
  match capturedImage s with
  | Some url => negb (String.eqb url "")
  | None => false
  end.

End App.

(** ** The placed elements of [EditorLayer.jsx] *)

Module EditorLayer.
Import ExportEngine.
Local Open Scope float_scope.




Definition removeElement (id : string) (placed : list element) : list element :=
  List.filter (fun el => negb (String.eqb (el_id el) id)) placed.

(** The element of [handleAddSticker]; [id] is the value of the template
    [`sticker-${Date.now()}`], [width] and [height] are
    [canvasDimensions].  The [content] of the data (the icon of the live
    preview) is not part of what the export reads. *)
Definition handleAddSticker (id stickerId : string) (width height : float)
    (placed : list element) : list element :=
  placed ++ [{| el_id := id; el_type := "sticker"; el_x := width / 2; el_y := height / 2;
                el_scale := 1; el_rotation := 0;
                el_data := Some {| stickerId := Some stickerId; emojiChar := None;
                                   text := None; style := None |} |}].

Definition handleAddEmoji (id emoji : string) (width height : float)
    (placed : list element) : list element :=
  placed ++ [{| el_id := id; el_type := "emoji"; el_x := width / 2; el_y := height / 2;
                el_scale := 1; el_rotation := 0;
                el_data := Some {| stickerId := None; emojiChar := Some emoji;
                                   text := None; style := None |} |}].

(** [{ ...el.data, text, style }] *)
Definition with_text (d : option elementData) (txt : string) (st : textStyle) : elementData :=
  {| stickerId := d' ← d; stickerId d';
     emojiChar := d' ← d; emojiChar d';
     text := Some txt;
     style := Some st |}.

(** [handleTextSave(text, style)]: with an [activeTextId] the text of
    that element is replaced, without one a new text element is added at
    the centre. *)
Definition handleTextSave (activeTextId : option string) (id txt : string) (st : textStyle)
    (width height : float) (placed : list element) : list element :=
  match activeTextId with
  | Some active =>
      if String.eqb active "" then
        placed ++ [{| el_id := id; el_type := "text"; el_x := width / 2; el_y := height / 2;
                      el_scale := 1; el_rotation := 0;
                      el_data := Some (with_text None txt st) |}]
      else
        map (fun el =>
               if String.eqb (el_id el) active
               then {| el_id := el_id el; el_type := el_type el; el_x := el_x el;
                       el_y := el_y el; el_scale := el_scale el;
                       el_rotation := el_rotation el;
                       el_data := Some (with_text (el_data el) txt st) |}
               else el) placed
  | None =>
      placed ++ [{| el_id := id; el_type := "text"; el_x := width / 2; el_y := height / 2;
                    el_scale := 1; el_rotation := 0;
                    el_data := Some (with_text None txt st) |}]
  end.

End EditorLayer.

(** ** Sharing: [shareImage], [exportAndShare] and the Done button *)

Module Share.
Import ExportEngine.

(** What [await navigator.share(...)] does: it resolves, or rejects with
    an [AbortError] (the user closed the sheet), or rejects with another
    error. *)
Inductive shareOutcome :=
| ShareResolved
| ShareAborted
| ShareFailed.

(** The object [shareImage] returns; a flag it does not set is
    [undefined], which reads as [false]. *)
Record shareResult := {
  shared : bool;
  cancelled : bool;
  error : bool;
  notSupported : bool
}.

(** [shareImage(blob, dataURL)]; [canShare] is [None] when
    [navigator.canShare] does not exist, else what it answers for the
    file. *)
Definition shareImage (canShare : option bool) (outcome : shareOutcome) : shareResult :=
  match canShare with
  | Some true =>
      match outcome with
      | ShareResolved =>
          {| shared := true; cancelled := false; error := false; notSupported := false |}
      | ShareAborted =>
          {| shared := false; cancelled := true; error := false; notSupported := false |}
      | ShareFailed =>
          {| shared := false; cancelled := false; error := true; notSupported := false |}
      end
  | _ => {| shared := false; cancelled := false; error := false; notSupported := true |}
  end.

(** [exportAndShare]: the share result with the data URL of the export;
    a rejected export rejects the whole call before any share. *)
Definition exportAndShare {Blob : Type} (exported : JS.promise (exportResult Blob))
    (canShare : option bool) (outcome : shareOutcome)
    : JS.promise (shareResult * string) :=
  match exported with
  | JS.Fulfilled r => JS.Fulfilled (shareImage canShare outcome, dataURL r)
  | JS.Rejected e => JS.Rejected e
  | JS.Pending => JS.Pending
  end.

(** What [handleDone] of [EditorLayer.jsx] did once it is over. *)
Record doneReport := {
  exited : bool;        (* [onDone()] was called *)
  alerted : bool;       (* the message "Sharing is not supported" *)
  loggedError : bool;   (* [console.error('Export failed:', ...)] *)
  isExporting : bool    (* the flag after the [finally] *)
}.

(** [handleDone]; [hasCanvas] is [baseCanvasRef.current], [hasOnDone]
    whether the parent gave an [onDone], [exportingBefore] the flag
    [isExporting] when the button is pressed.  [None] is a call that
    never ends, which takes an export that never settles. *)
Definition handleDone {Blob : Type} (hasCanvas hasOnDone exportingBefore : bool)
    (exported : JS.promise (exportResult Blob))
    (canShare : option bool) (outcome : shareOutcome) : option doneReport :=
  if negb hasCanvas then
    Some {| exited := false; alerted := false; loggedError := false;
            isExporting := exportingBefore |}
  else
    match exportAndShare exported canShare outcome with
    | JS.Fulfilled (result, _) =>
        if notSupported result then
          Some {| exited := false; alerted := true; loggedError := false;
                  isExporting := false |}
        else
          Some {| exited := hasOnDone && (shared result || cancelled result);
                  alerted := false; loggedError := false; isExporting := false |}
    | JS.Rejected _ =>
        Some {| exited := false; alerted := false; loggedError := true;
                isExporting := false |}
    | JS.Pending => None
    end.

End Share.

(** ** How a text looks: live element, editor preview, export *)

Module TextLook.
Import Canvas ExportEngine.




(** [FONTS] of [TextEditor.jsx]. *)
Record fontDef := {
  font_id : string;
  font_label : string;
  font_family : string;
  font_weight : option string
}.

Definition FONTS : list fontDef := [
  {| font_id := "classic"; font_label := "Classic";
     font_family := "-apple-system, BlinkMacSystemFont, sans-serif"; font_weight := None |};
  {| font_id := "bold"; font_label := "Bold";
     font_family := "-apple-system, BlinkMacSystemFont, sans-serif";
     font_weight := Some "700" |};
  {| font_id := "serif"; font_label := "Serif";
     font_family := "Georgia, Times New Roman, serif"; font_weight := None |};
  {| font_id := "mono"; font_label := "Mono";
     font_family := "SF Mono, Menlo, monospace"; font_weight := None |};
  {| font_id := "condensed"; font_label := "Condensed";
     font_family := "Arial Narrow, sans-serif"; font_weight := None |};
  {| font_id := "script"; font_label := "Script";
     font_family := "Snell Roundhand, cursive"; font_weight := None |}
].








End TextLook.

(** * Properties *)

(** ** Typed-array stores *)

Section ToUint8Clamp.
Import JS.

Lemma round_half_even_nonneg (m : positive) (e : Z) : 0 <= round_half_even m e.
Proof.
  unfold round_half_even.
  destruct (0 <=? e) eqn:He.
  - apply Z.shiftl_nonneg. lia.
  - assert (Hq : 0 <= Z.shiftr (Z.pos m) (- e)) by (apply Z.shiftr_nonneg; lia).
    cbv zeta.
    repeat match goal with |- context [if ?b then _ else _] => destruct b end; lia.
Qed.

Lemma ToUint8Clamp_range (x : float) : 0 <= ToUint8Clamp x <= 255.
Proof.
  unfold ToUint8Clamp.
  destruct (Prim2SF x) as [s| s| |s m e]; try destruct s; try lia.
  pose proof (round_half_even_nonneg m e). lia.
Qed.

End ToUint8Clamp.

(** ** The [clamp] helper *)

Section Clamp.
Import Camera.
Local Open Scope float_scope.

(** Among finite positive numbers, "not above" is "below or equal". *)
Lemma SFleb_of_not_ltb (m m' : positive) (e e' : Z) :
  SFltb (S754_finite false m' e') (S754_finite false m e) = false ->
  SFleb (S754_finite false m e) (S754_finite false m' e') = true.
Proof.
  unfold SFltb, SFleb, SFcompare.
  assert (Hm : Pos.compare_cont Eq m' m = CompOpp (Pos.compare_cont Eq m m'))
    by (rewrite Pos.compare_cont_antisym; reflexivity).
  rewrite (Z.compare_antisym e e'), Hm.
  destruct (e ?= e')%Z; simpl; try congruence.
  destruct (Pos.compare_cont Eq m m'); simpl; congruence.
Qed.

(** [clamp] lets [NaN] through and sends every other number into
    [0,255]: the store that follows only has to round. *)
Lemma clamp_range (v : float) :
  is_nan v = true \/ ((0 <=? clamp v) = true /\ (clamp v <=? 255) = true).
Proof.
  unfold clamp. rewrite !FloatAxioms.ltb_spec.
  assert (E0 : Prim2SF 0 = S754_zero false) by reflexivity.
  assert (E255 : Prim2SF 255 = S754_finite false 8972014882652160 (-45)) by reflexivity.
  rewrite E0, E255.
  destruct (Prim2SF v) as [s| s| |s m e] eqn:Ev.
  - right. simpl. rewrite !FloatAxioms.leb_spec, Ev, E0, E255. split; reflexivity.
  - right. destruct s; simpl; split; reflexivity.
  - left. unfold is_nan. rewrite FloatAxioms.eqb_spec, Ev. reflexivity.
  - right. destruct s; [split; reflexivity|].
    change (SFltb (S754_finite false m e) (S754_zero false)) with false. cbv iota.
    destruct (SFltb (S754_finite false 8972014882652160 (-45)) (S754_finite false m e))
      eqn:E.
    + split; reflexivity.
    + rewrite !FloatAxioms.leb_spec, Ev, E0, E255. split; [reflexivity|].
      apply SFleb_of_not_ltb, E.
Qed.

End Clamp.

(** ** Programs over the pixel buffer *)

Section PxPrograms.
Import Camera.

(** A property of the buffer that a program keeps. *)
Definition preserves {A} (P : list Z -> Prop) (m : Px A) : Prop :=
  forall s, P (data s) -> P (data (snd (m s))).

Lemma preserves_ret {A} P (a : A) : preserves P (ret a).
Proof. intros s H. exact H. Qed.

Lemma preserves_bind {A B} P (m : Px A) (k : A -> Px B) :
  preserves P m -> (forall a, preserves P (k a)) -> preserves P (bind m k).
Proof.
  intros Hm Hk s H. unfold bind.
  specialize (Hm s H).
  destruct (m s) as [[a|] s']; simpl in *.
  - apply Hk, Hm.
  - exact Hm.
Qed.

Lemma preserves_len P : preserves P len.
Proof. intros s H. exact H. Qed.

Lemma preserves_load P i : preserves P (load i).
Proof. intros s H. exact H. Qed.

Lemma preserves_for4 P body fuel :
  (forall i, preserves P (body i)) ->
  forall i n, preserves P (for4 fuel i n body).
Proof.
  intros Hb. induction fuel as [|fuel IH]; intros i n; simpl.
  - apply preserves_ret.
  - destruct (i <? n)%nat.
    + apply preserves_bind; [apply Hb | intros _; apply IH].
    + apply preserves_ret.
Qed.

(** Every store leaves a byte in its slot. *)
Lemma store_channel_ok i v : preserves (Forall channel_ok) (store i v).
Proof.
  intros [d f] H. unfold store. simpl in *.
  destruct f as [[|k]|]; simpl; try exact H;
    apply Forall_insert; auto; apply ToUint8Clamp_range.
Qed.

(** No store changes the number of slots. *)
Lemma store_length n i v : preserves (fun d => length d = n) (store i v).
Proof.
  intros [d f] H. unfold store. simpl in *.
  destruct f as [[|k]|]; simpl; rewrite ?length_insert; exact H.
Qed.

(** A run that ends normally under a fault counter is the run of the
    platform that never faults. *)
Definition faithful {A} (m : Px A) : Prop :=
  forall d f a s',
    m {| data := d; fault := f |} = (Normal a, s') ->
    m {| data := d; fault := None |} = (Normal a, {| data := data s'; fault := None |}).

Lemma faithful_ret {A} (a : A) : faithful (ret a).
Proof. intros d f a' s' H. unfold ret in *. inversion H; subst. reflexivity. Qed.

Lemma faithful_bind {A B} (m : Px A) (k : A -> Px B) :
  faithful m -> (forall a, faithful (k a)) -> faithful (bind m k).
Proof.
  intros Hm Hk d f b s' H. unfold bind in *.
  destruct (m {| data := d; fault := f |}) as [[a|] [d1 f1]] eqn:E; [|discriminate].
  rewrite (Hm _ _ _ _ E). simpl.
  apply (Hk a d1 f1), H.
Qed.

Lemma faithful_len : faithful len.
Proof. intros d f a s' H. unfold len in *. inversion H; subst. reflexivity. Qed.

Lemma faithful_load i : faithful (load i).
Proof. intros d f a s' H. unfold load in *. inversion H; subst. reflexivity. Qed.

Lemma faithful_store i v : faithful (store i v).
Proof.
  intros d f a s' H. unfold store in *. simpl in *.
  destruct f as [[|k]|]; inversion H; subst; reflexivity.
Qed.

Lemma faithful_for4 body fuel :
  (forall i, faithful (body i)) ->
  forall i n, faithful (for4 fuel i n body).
Proof.
  intros Hb. induction fuel as [|fuel IH]; intros i n; simpl.
  - apply faithful_ret.
  - destruct (i <? n)%nat.
    + apply faithful_bind; [apply Hb | intros _; apply IH].
    + apply faithful_ret.
Qed.

(** A program that ends normally on a platform that never faults. *)
Definition total {A} (m : Px A) : Prop :=
  forall s, fault s = None ->
    exists a s', m s = (Normal a, s') /\ fault s' = None.

Lemma total_ret {A} (a : A) : total (ret a).
Proof. intros s H. exists a, s. split; [reflexivity | exact H]. Qed.

Lemma total_bind {A B} (m : Px A) (k : A -> Px B) :
  total m -> (forall a, total (k a)) -> total (bind m k).
Proof.
  intros Hm Hk s H. unfold bind.
  destruct (Hm s H) as (a & s1 & E1 & H1). rewrite E1.
  apply Hk, H1.
Qed.

Lemma total_len : total len.
Proof. intros s H. eexists _, s. split; [reflexivity | exact H]. Qed.

Lemma total_load i : total (load i).
Proof. intros s H. eexists _, s. split; [reflexivity | exact H]. Qed.

Lemma total_store i v : total (store i v).
Proof.
  intros s H. unfold store. rewrite H. eexists _, _. split; reflexivity.
Qed.

Lemma total_for4 body fuel :
  (forall i, total (body i)) ->
  forall i n, total (for4 fuel i n body).
Proof.
  intros Hb. induction fuel as [|fuel IH]; intros i n; simpl.
  - apply total_ret.
  - destruct (i <? n)%nat.
    + apply total_bind; [apply Hb | intros _; apply IH].
    + apply total_ret.
Qed.

(** The loops are given [n] iterations for [n] slots: no more than
    that are ever used, so the bound never cuts a loop short. *)
Lemma for4_fuel_enough body n fuel i :
  (n <= i + 4 * fuel)%nat ->
  forall extra, for4 (fuel + extra) i n body = for4 fuel i n body.
Proof.
  revert i. induction fuel as [|fuel IH]; intros i Hn extra; simpl.
  - destruct extra as [|extra]; simpl; [reflexivity|].
    destruct (Nat.ltb_spec i n); [lia | reflexivity].
  - destruct (i <? n)%nat; [|reflexivity].
    rewrite IH by lia. reflexivity.
Qed.

(** In particular the [n] iterations the filters allow for [n] slots from
    slot 0 are a loop that ran to its end. *)
Corollary for4_runs_to_completion body n extra :
  for4 (n + extra) 0 n body = for4 n 0 n body.
Proof. apply for4_fuel_enough. lia. Qed.

End PxPrograms.

(** ** The pixel filter *)

Section PixelFilter.
Import Camera.

Ltac px_preserves st :=
  cbv zeta;
  lazymatch goal with
  | |- preserves _ (bind _ _) =>
      apply preserves_bind; [px_preserves st | intros ?; px_preserves st]
  | |- preserves _ (load _) => apply preserves_load
  | |- preserves _ (store _ _) => apply st
  | |- preserves _ len => apply preserves_len
  | |- preserves _ (ret _) => apply preserves_ret
  end.

Ltac px_faithful :=
  cbv zeta;
  lazymatch goal with
  | |- faithful (bind _ _) => apply faithful_bind; [px_faithful | intros ?; px_faithful]
  | |- faithful (load _) => apply faithful_load
  | |- faithful (store _ _) => apply faithful_store
  | |- faithful len => apply faithful_len
  | |- faithful (ret _) => apply faithful_ret
  end.

(** Whatever keeps its property across one store, the whole filter
    keeps. *)
Lemma applyPixelFilter_preserves P filterName :
  (forall i v, preserves P (store i v)) ->
  preserves P (applyPixelFilter filterName).
Proof.
  intros Hst. unfold applyPixelFilter.
  apply preserves_bind; [apply preserves_len | intros n].
  repeat match goal with
         | |- context [if ?b then _ else _] => destruct b
         end;
    try apply preserves_ret;
    apply preserves_for4; intros i;
    unfold mono_pixel, warm_pixel, cool_pixel, vibrant_pixel, vintage_pixel;
    px_preserves Hst.
Qed.

Lemma applyPixelFilter_faithful filterName : faithful (applyPixelFilter filterName).
Proof.
  unfold applyPixelFilter.
  apply faithful_bind; [apply faithful_len | intros n].
  repeat match goal with
         | |- context [if ?b then _ else _] => destruct b
         end;
    try apply faithful_ret;
    apply faithful_for4; intros i;
    unfold mono_pixel, warm_pixel, cool_pixel, vibrant_pixel, vintage_pixel;
    px_faithful.
Qed.

Ltac px_total :=
  cbv zeta;
  lazymatch goal with
  | |- total (bind _ _) => apply total_bind; [px_total | intros ?; px_total]
  | |- total (load _) => apply total_load
  | |- total (store _ _) => apply total_store
  | |- total len => apply total_len
  | |- total (ret _) => apply total_ret
  end.

Lemma applyPixelFilter_total filterName : total (applyPixelFilter filterName).
Proof.
  unfold applyPixelFilter.
  apply total_bind; [apply total_len | intros n].
  repeat match goal with
         | |- context [if ?b then _ else _] => destruct b
         end;
    try apply total_ret;
    apply total_for4; intros i;
    unfold mono_pixel, warm_pixel, cool_pixel, vibrant_pixel, vintage_pixel;
    px_total.
Qed.

(** The filter applied by a platform that never faults ends normally, and
    [filtered] is the buffer it leaves. *)
Lemma applyPixelFilter_terminates filterName pixels :
  applyPixelFilter filterName {| data := pixels; fault := None |}
  = (Normal tt, {| data := filtered filterName pixels; fault := None |}).
Proof.
  unfold filtered.
  destruct (applyPixelFilter_total filterName {| data := pixels; fault := None |} eq_refl)
    as ([] & [d f] & E & Hf).
  rewrite E. simpl in *. subst f. reflexivity.
Qed.

(** C1 (as the claim states it, refuted): the [mono] filter does not send
    the pixel (200,100,50) to (129,129,129). *)
Lemma mono_200_100_50_is_not_129 :
  filtered "mono" [200; 100; 50; 255] <> [129; 129; 129; 255].
Proof. vm_compute. discriminate. Qed.

(** C1 (amended): on the pixel (200,100,50) the luminance
    0.299R + 0.587G + 0.114B is 124.2, the contrast step
    (L - 128) * 1.1 + 128 gives 123.82 (to the last binary digit,
    123.82000000000001), which [clamp] leaves alone and the store rounds:
    the [mono] filter writes (124,124,124) and keeps alpha. *)
Theorem mono_200_100_50 :
  let L := (200 * 0.299 + 100 * 0.587 + 50 * 0.114)%float in
  let L' := ((L - 128) * 1.1 + 128)%float in
  L = 124.2%float /\
  L' = 123.82000000000001%float /\
  clamp L' = L' /\
  JS.ToUint8Clamp (clamp L') = 124 /\
  filtered "mono" [200; 100; 50; 255] = [124; 124; 124; 255].
Proof. vm_compute. repeat split; reflexivity. Qed.

(** C2: the kinds [pastel], [soft], [crisp] and [fade] have no [case] in
    the filter: the call ends normally without a single store, so every
    channel of every pixel is what it was (whatever the buffer and the
    fault counter), and the captured canvas is the frame; the preview
    string of each of them is not ['none']. *)
Theorem css_only_filters_are_identity (filterName : string) (pixels : list Z)
    (f : option nat) :
  In filterName ["pastel"; "soft"; "crisp"; "fade"] ->
  applyPixelFilter filterName {| data := pixels; fault := f |}
    = (Normal tt, {| data := pixels; fault := f |}) /\
  filtered filterName pixels = pixels /\
  captureFrame_pixels pixels filterName f = pixels /\
  getFilterStyle filterName <> "none".
Proof.
  simpl. intros [<-|[<-|[<-|[<-|[]]]]]; repeat split; try reflexivity;
    vm_compute; discriminate.
Qed.

Lemma css_only_filters_are_identity_witness :
  In "pastel" ["pastel"; "soft"; "crisp"; "fade"] /\
  filtered "pastel" [10; 200; 30; 255; 0; 255; 128; 7] = [10; 200; 30; 255; 0; 255; 128; 7].
Proof.
  split.
  - simpl. auto.
  - apply (css_only_filters_are_identity "pastel" [10; 200; 30; 255; 0; 255; 128; 7] None).
    simpl. auto.
Defined.

(** C6: the canvas that [captureFrame] encodes holds the unfiltered frame
    whenever the filter raised, at whatever store of whatever pixel, and
    the completely filtered frame otherwise; nothing else is ever
    encoded. *)
Theorem captureFrame_all_or_nothing (url : Type) (toDataURL : list Z -> url)
    (frame : list Z) (selectedFilter : string) (f : option nat) :
  captureFrame_pixels frame selectedFilter f
    = (if throws selectedFilter frame f then frame else filtered selectedFilter frame) /\
  captureFrame toDataURL true frame selectedFilter f
    = Some (toDataURL (if throws selectedFilter frame f then frame
                       else filtered selectedFilter frame)).
Proof.
  assert (H : captureFrame_pixels frame selectedFilter f
              = if throws selectedFilter frame f then frame
                else filtered selectedFilter frame).
  { unfold captureFrame_pixels, throws.
    destruct (String.eqb_spec selectedFilter "original") as [->|Hne]; simpl.
    - reflexivity.
    - destruct (applyPixelFilter selectedFilter {| data := frame; fault := f |})
        as [[[]|] s'] eqn:E; simpl; [|reflexivity].
      unfold filtered.
      rewrite (applyPixelFilter_faithful selectedFilter _ _ _ _ E). reflexivity. }
  split; [exact H|].
  unfold captureFrame. simpl. rewrite H. reflexivity.
Qed.

(** A fault after one store: the copy is half filtered, the canvas is
    not. *)
Example captureFrame_fault_mid_pixel :
  let frame := [200; 100; 50; 255; 10; 20; 30; 255] in
  applyPixelFilter "mono" {| data := frame; fault := Some 1%nat |}
    = (Thrown, {| data := [124; 100; 50; 255; 10; 20; 30; 255]; fault := Some 0%nat |}) /\
  captureFrame_pixels frame "mono" (Some 1%nat) = frame /\
  captureFrame_pixels frame "mono" (Some 6%nat) = [124; 124; 124; 255; 7; 7; 7; 255] /\
  captureFrame_pixels frame "mono" None = [124; 124; 124; 255; 7; 7; 7; 255].
Proof. vm_compute. repeat split; reflexivity. Qed.

(** C7: whatever the filter name, the filter ends normally and sends a
    buffer of bytes to a buffer of bytes of the same length: every value
    written is first clamped to [0,255] by [clamp] (unless it is [NaN])
    and then stored through the clamping conversion of the typed array,
    and every other channel is untouched. *)
Theorem applyPixelFilter_channels_in_range (filterName : string) (pixels : list Z) :
  Forall channel_ok pixels ->
  applyPixelFilter filterName {| data := pixels; fault := None |}
    = (Normal tt, {| data := filtered filterName pixels; fault := None |}) /\
  Forall channel_ok (filtered filterName pixels) /\
  length (filtered filterName pixels) = length pixels /\
  (forall v : float,
     is_nan v = true \/ ((0 <=? clamp v)%float = true /\ (clamp v <=? 255)%float = true)) /\
  (forall v : float, channel_ok (JS.ToUint8Clamp v)).
Proof.
  intros H. split; [apply applyPixelFilter_terminates|].
  unfold filtered. split; [|split; [|split]].
  - apply (applyPixelFilter_preserves (Forall channel_ok) filterName store_channel_ok
             {| data := pixels; fault := None |}), H.
  - apply (applyPixelFilter_preserves (fun d => length d = length pixels) filterName
             (store_length (length pixels)) {| data := pixels; fault := None |}).
    reflexivity.
  - exact clamp_range.
  - exact ToUint8Clamp_range.
Qed.

Lemma applyPixelFilter_channels_in_range_witness :
  Forall channel_ok (filtered "warm" [255; 255; 255; 255; 0; 0; 0; 255]) /\
  length (filtered "warm" [255; 255; 255; 255; 0; 0; 0; 255]) = 8%nat.
Proof.
  assert (H : Forall channel_ok [255; 255; 255; 255; 0; 0; 0; 255])
    by (repeat constructor; unfold channel_ok; lia).
  destruct (applyPixelFilter_channels_in_range "warm" _ H) as (_ & Hb & Hl & _).
  split; [exact Hb | exact Hl].
Defined.

(** The five filters on a white and a black pixel. *)
Example filters_on_white_and_black :
  let wb := [255; 255; 255; 255; 0; 0; 0; 255] in
  filtered "mono" wb = [255; 255; 255; 255; 0; 0; 0; 255] /\
  filtered "warm" wb = [255; 255; 235; 255; 16; 8; 0; 255] /\
  filtered "cool" wb = [250; 255; 255; 255; 0; 5; 22; 255] /\
  filtered "vibrant" wb = [255; 255; 255; 255; 0; 0; 0; 255] /\
  filtered "vintage" wb = [255; 250; 204; 255; 43; 33; 20; 255].
Proof. vm_compute. repeat split; reflexivity. Qed.

End PixelFilter.

(** ** The export compositor *)

Section Compositor.
Import Canvas ExportEngine.
Local Open Scope float_scope.

(** Anything divided by [NaN] is [NaN]. *)
Lemma div_nan (w : float) : w / nan = nan.
Proof.
  rewrite <- (SF2Prim_Prim2SF (w / nan)), div_spec.
  change (Prim2SF nan) with S754_nan.
  destruct (Prim2SF w) as [s| s| |s m e]; reflexivity.
Qed.

(** Without a display width the scale is 1, whatever the raster. *)
Lemma dpr_undefined (width : float) : dpr width JS.Undefined = 1.
Proof. unfold dpr. simpl. rewrite div_nan. reflexivity. Qed.

(** C3 (the code at the failing input): with a display width of zero
    the quotient of a 300 pixel wide raster is [Infinity], which is
    truthy, so the fallback is not taken and the scale is [Infinity],
    not 1; every scaled width and coordinate is then infinite.  The
    fallback is taken when the display width is [undefined] and when
    raster and display width are both zero. *)
Theorem dpr_zero_displayWidth :
  dpr 300 (JS.Num 0) = infinity /\
  (forall s, strokeLineWidth s (dpr 300 (JS.Num 0)) = infinity) /\
  (forall width, dpr width JS.Undefined = 1) /\
  dpr 0 (JS.Num 0) = 1 /\
  dpr 600 (JS.Num 300) = 2.
Proof.
  split; [reflexivity|]. split.
  - intros s. change (dpr 300 (JS.Num 0)) with infinity.
    unfold strokeLineWidth, JS.or_else.
    destruct (JS.truthy (num_prop ExportEngine.BRUSH_SIZES (stroke_size s))) eqn:E.
    + unfold num_prop in *.
      destruct (ExportEngine.BRUSH_SIZES !! stroke_size s) as [v|] eqn:Ev;
        [|discriminate].
      unfold ExportEngine.BRUSH_SIZES in Ev. simpl in Ev.
      rewrite lookup_insert in Ev. case_decide.
      * inversion Ev. reflexivity.
      * rewrite lookup_insert in Ev. case_decide.
        -- inversion Ev. reflexivity.
        -- rewrite lookup_empty in Ev. discriminate.
    + reflexivity.
  - split; [exact dpr_undefined|]. split; reflexivity.
Qed.

(** C4 (the code at the failing input): a stroke of size ['medium'] is
    8 wide in the export at scale 1 and 16 wide in the drawing tool; the
    two tables only agree on ['small'] (4 and 4). *)
Theorem brush_size_tables_differ (id : Z) (c : string) (pts : list point) :
  let medium := {| stroke_id := id; stroke_color := c; stroke_size := "medium"; points := pts |} in
  let small := {| stroke_id := id; stroke_color := c; stroke_size := "small"; points := pts |} in
  ExportEngine.strokeLineWidth medium 1 = 8 /\
  DrawTool.strokeLineWidth medium = 16 /\
  ExportEngine.strokeLineWidth small 1 = 4 /\
  DrawTool.strokeLineWidth small = 4.
Proof. repeat split; vm_compute; reflexivity. Qed.

(** *** The stable sort *)

Section StableSort.
Local Open Scope Z_scope.
Context {A : Type} (key : A -> Z).
Hypothesis key_range : forall a, key a = 0 \/ key a = 1 \/ key a = 2.

Let cmp (a b : A) : Z := key a - key b.





End StableSort.

(** *** The order of the layers *)







Section Layers.
Variable measureText : font -> string -> float.
Variable scale : float.






End Layers.


(** *** Text decoration *)

(** The ink chosen against a background is black for the two light
    colours and white for every other string. *)
Lemma contrast_ink_spec (c : string) :
  (contrast_ink c = "#000" <-> c = "#FFFFFF" \/ c = "#FFCC00") /\
  (~ (c = "#FFFFFF" \/ c = "#FFCC00") -> contrast_ink c = "#FFF").
Proof.
  unfold contrast_ink.
  destruct (String.eqb_spec c "#FFFFFF") as [->|N1]; simpl.
  - split; [split; auto | tauto].
  - destruct (String.eqb_spec c "#FFCC00") as [->|N2]; simpl.
    + split; [split; auto | tauto].
    + split; [split; [discriminate | tauto] | reflexivity].
Qed.

(** The colour a text is drawn with: [style.color || '#fff']. *)
Lemma text_color_light (c : option string) :
  let color := JS.str_or c "#fff" in
  (color = "#FFFFFF" \/ color = "#FFCC00") <-> (c = Some "#FFFFFF" \/ c = Some "#FFCC00").
Proof.
  destruct c as [s|]; simpl.
  - destruct (String.eqb_spec s "") as [->|N].
    + split; intros [H|H]; discriminate.
    + split; intros [H|H]; [left|right|left|right]; congruence.
  - split; intros [H|H]; discriminate.
Qed.

(** C8: a text element whose style mode is ['background'] or
    ['highlight'] has one filled text, and its ink is black if and only
    if the colour of the element is ['#FFFFFF'] or ['#FFCC00']; with any
    other colour, or none, the ink is white. *)
Theorem drawText_contrast_ink (measureText : font -> string -> float)
    (el : element) (scale : float) :
  styleMode (style_of el) = Some "background" \/
  styleMode (style_of el) = Some "highlight" ->
  let inks := text_inks (paints Canvas.initial [] [] (drawText measureText el scale)) in
  let light := color (style_of el) = Some "#FFFFFF" \/ color (style_of el) = Some "#FFCC00" in
  (inks = ["#000"] <-> light) /\ (~ light -> inks = ["#FFF"]).
Proof.
  intros Hmode inks light.
  assert (E : inks = [contrast_ink (JS.str_or (color (style_of el)) "#fff")]).
  { unfold inks, drawText. cbv zeta.
    destruct Hmode as [-> | ->]; reflexivity. }
  rewrite E.
  pose proof (contrast_ink_spec (JS.str_or (color (style_of el)) "#fff")) as [Hb Hw].
  pose proof (text_color_light (color (style_of el))) as Hl. cbv zeta in Hl.
  unfold light. split.
  - rewrite <- Hl, <- Hb. split; [intros H; inversion H; reflexivity | intros ->; reflexivity].
  - intros H. rewrite Hw; [reflexivity | rewrite Hl; exact H].
Qed.

Lemma drawText_contrast_ink_witness :
  let el c mode :=
    {| el_id := "text-1"; el_type := "text"; el_x := 50; el_y := 50; el_scale := 1;
       el_rotation := 0;
       el_data := Some {| stickerId := None; emojiChar := None; text := Some "Hi";
                          style := Some {| fontId := Some "classic"; color := Some c;
                                           textAlign := None; styleMode := Some mode |} |} |} in
  let inks c mode :=
    text_inks (paints Canvas.initial [] [] (drawText (fun _ _ => 20) (el c mode) 1)) in
  inks "#FFCC00" "background" = ["#000"] /\
  inks "#FF3B30" "highlight" = ["#FFF"].
Proof.
  cbv zeta. split.
  - apply (drawText_contrast_ink (fun _ _ => 20)); [left; reflexivity | right; reflexivity].
  - apply (drawText_contrast_ink (fun _ _ => 20)); [right; reflexivity |].
    simpl. intros [H|H]; discriminate.
Defined.

(** *** Encoding *)


End Compositor.

(** ** The drawing tool *)

Section Strokes.
Import Canvas ExportEngine DrawTool.






End Strokes.

(** * Further properties *)

(** ** The filter, pixel by pixel *)

Section PixelByPixel.
Import Camera.

(** The result of a run on a buffer, seen behind a prefix the run does
    not reach. *)
Definition behind {A} (pre : list Z) (r : outcome A * pxState) : outcome A * pxState :=
  (fst r, {| data := pre ++ data (snd r); fault := fault (snd r) |}).

(** [m] on a buffer that starts with [pre] does what [m'] does on the
    rest. *)
Definition shifts {A} (pre : list Z) (m m' : Px A) : Prop :=
  forall d f,
    m {| data := pre ++ d; fault := f |} = behind pre (m' {| data := d; fault := f |}).

Lemma shifts_ret {A} pre (a : A) : shifts pre (ret a) (ret a).
Proof. intros d f. reflexivity. Qed.

Lemma shifts_bind {A B} pre (m m' : Px A) (k k' : A -> Px B) :
  shifts pre m m' -> (forall a, shifts pre (k a) (k' a)) ->
  shifts pre (bind m k) (bind m' k').
Proof.
  intros Hm Hk d f. unfold bind. rewrite Hm.
  destruct (m' {| data := d; fault := f |}) as [[a|] [d1 f1]]; simpl.
  - apply Hk.
  - reflexivity.
Qed.

Lemma shifts_load pre i j : i = (length pre + j)%nat -> shifts pre (load i) (load j).
Proof.
  intros -> d f. unfold load, behind. simpl.
  rewrite lookup_app_r by lia.
  replace (length pre + j - length pre)%nat with j by lia. reflexivity.
Qed.

Lemma shifts_store pre i j v :
  i = (length pre + j)%nat -> shifts pre (store i v) (store j v).
Proof.
  intros -> d f. unfold store, behind. simpl.
  destruct f as [[|k]|]; simpl; try reflexivity;
    rewrite insert_app_r; reflexivity.
Qed.

Lemma shifts_for4 pre body fuel :
  (forall i j, i = (length pre + j)%nat -> shifts pre (body i) (body j)) ->
  forall i j n, i = (length pre + j)%nat ->
    shifts pre (for4 fuel i (length pre + n) body) (for4 fuel j n body).
Proof.
  intros Hb. induction fuel as [|fuel IH]; intros i j n ->; simpl.
  - apply shifts_ret.
  - destruct (Nat.ltb_spec j n), (Nat.ltb_spec (length pre + j) (length pre + n));
      try lia.
    + apply shifts_bind; [apply Hb; reflexivity | intros _; apply IH; lia].
    + apply shifts_ret.
Qed.

Ltac px_shifts :=
  cbv zeta;
  lazymatch goal with
  | |- shifts _ (bind _ _) (bind _ _) =>
      apply shifts_bind; [px_shifts | intros ?; px_shifts]
  | |- shifts _ (load _) (load _) => apply shifts_load; lia
  | |- shifts _ (store _ _) (store _ _) => apply shifts_store; lia
  | |- shifts _ (ret _) (ret _) => apply shifts_ret
  end.

(** The five loop bodies of the filter. *)
Definition kernels : list (nat -> Px unit) :=
  [mono_pixel; warm_pixel; cool_pixel; vibrant_pixel; vintage_pixel].

Lemma kernel_shifts body pre i j :
  In body kernels -> i = (length pre + j)%nat -> shifts pre (body i) (body j).
Proof.
  intros Hin ->. simpl in Hin.
  destruct Hin as [<-|[<-|[<-|[<-|[<-|[]]]]]];
    unfold mono_pixel, warm_pixel, cool_pixel, vibrant_pixel, vintage_pixel;
    px_shifts.
Qed.

(** One pass of a loop body over the first pixel leaves the alpha slot
    and everything behind it alone. *)
Lemma kernel_first_pixel body r g b a rest :
  In body kernels ->
  exists r' g' b',
    (forall a0 rest0,
       body 0%nat {| data := r :: g :: b :: a0 :: rest0; fault := None |}
       = (Normal tt, {| data := r' :: g' :: b' :: a0 :: rest0; fault := None |})) /\
    body 0%nat {| data := r :: g :: b :: a :: rest; fault := None |}
    = (Normal tt, {| data := r' :: g' :: b' :: a :: rest; fault := None |}).
Proof.
  intros Hin. simpl in Hin.
  destruct Hin as [<-|[<-|[<-|[<-|[<-|[]]]]]];
    do 3 eexists;
    (split; [|cbv -[JS.ToUint8Clamp clamp JS.of_Z]; reflexivity]);
    intros a0 rest0; reflexivity.
Qed.

(** The loop body the [switch] selects, if any. *)
Definition kernel_of (filterName : string) : option (nat -> Px unit) :=
  if String.eqb filterName "mono" then Some mono_pixel
  else if String.eqb filterName "warm" then Some warm_pixel
  else if String.eqb filterName "cool" then Some cool_pixel
  else if String.eqb filterName "vibrant" then Some vibrant_pixel
  else if String.eqb filterName "vintage" then Some vintage_pixel
  else None.

Lemma applyPixelFilter_kernel filterName :
  applyPixelFilter filterName
  = bind len (fun n => match kernel_of filterName with
                       | Some body => for4 n 0 n body
                       | None => ret tt
                       end).
Proof.
  unfold applyPixelFilter, kernel_of.
  repeat match goal with
         | |- context [String.eqb ?a ?b] => destruct (String.eqb a b)
         end; reflexivity.
Qed.

Lemma kernel_of_In filterName body : kernel_of filterName = Some body -> In body kernels.
Proof.
  unfold kernel_of, kernels.
  repeat match goal with
         | |- context [String.eqb ?a ?b] => destruct (String.eqb a b)
         end; intros H; inversion H; subst; simpl; auto 6.
Qed.

Lemma kernel_of_cases filterName :
  kernel_of filterName = None <->
  ~ In filterName ["mono"; "warm"; "cool"; "vibrant"; "vintage"].
Proof.
  unfold kernel_of. simpl.
  destruct (String.eqb_spec filterName "mono") as [->|];
    [split; [discriminate | intros H; exfalso; apply H; auto 6]|].
  destruct (String.eqb_spec filterName "warm") as [->|];
    [split; [discriminate | intros H; exfalso; apply H; auto 6]|].
  destruct (String.eqb_spec filterName "cool") as [->|];
    [split; [discriminate | intros H; exfalso; apply H; auto 6]|].
  destruct (String.eqb_spec filterName "vibrant") as [->|];
    [split; [discriminate | intros H; exfalso; apply H; auto 6]|].
  destruct (String.eqb_spec filterName "vintage") as [->|];
    [split; [discriminate | intros H; exfalso; apply H; auto 6]|].
  split; [|reflexivity]. intros _ H. intuition congruence.
Qed.

Lemma for4_next fuel i n body s :
  (i < n)%nat ->
  for4 (S fuel) i n body s
  = match body i s with
    | (Normal _, s') => for4 fuel (i + 4) n body s'
    | (Thrown, s') => (Thrown, s')
    end.
Proof.
  intros H. simpl. destruct (Nat.ltb_spec i n); [reflexivity | lia].
Qed.

Lemma for4_done fuel i n body s :
  (n <= i)%nat -> for4 fuel i n body s = (Normal tt, s).
Proof.
  intros H. destruct fuel; simpl; [reflexivity|].
  destruct (Nat.ltb_spec i n); [lia | reflexivity].
Qed.

(** The filtered buffer, when the name has a [case]. *)
Lemma filtered_kernel filterName body pixels :
  kernel_of filterName = Some body ->
  filtered filterName pixels
  = data (snd (for4 (length pixels) 0 (length pixels) body
                 {| data := pixels; fault := None |})).
Proof.
  intros K. unfold filtered. rewrite applyPixelFilter_kernel, K. reflexivity.
Qed.

Lemma filter_without_case_is_identity_aux filterName :
  ~ In filterName ["mono"; "warm"; "cool"; "vibrant"; "vintage"] ->
  forall pixels f,
    applyPixelFilter filterName {| data := pixels; fault := f |}
      = (Normal tt, {| data := pixels; fault := f |}) /\
    filtered filterName pixels = pixels.
Proof.
  intros H pixels f. apply kernel_of_cases in H.
  assert (E : forall g, applyPixelFilter filterName {| data := pixels; fault := g |}
                        = (Normal tt, {| data := pixels; fault := g |})).
  { intros g. rewrite applyPixelFilter_kernel, H. reflexivity. }
  split; [apply E|]. unfold filtered. rewrite E. reflexivity.
Qed.

(** X1: a name without a [case] of its own (['original'], the four
    preview-only kinds, a misspelt or unknown name) makes the filter a
    no-op that performs no store: it cannot fail, and the captured canvas
    is the frame. *)
Theorem filter_without_case_is_identity (filterName : string) (pixels : list Z)
    (f : option nat) :
  ~ In filterName ["mono"; "warm"; "cool"; "vibrant"; "vintage"] ->
  applyPixelFilter filterName {| data := pixels; fault := f |}
    = (Normal tt, {| data := pixels; fault := f |}) /\
  filtered filterName pixels = pixels /\
  captureFrame_pixels pixels filterName f = pixels.
Proof.
  intros H. apply kernel_of_cases in H.
  assert (E : forall g, applyPixelFilter filterName {| data := pixels; fault := g |}
                        = (Normal tt, {| data := pixels; fault := g |})).
  { intros g. rewrite applyPixelFilter_kernel, H. reflexivity. }
  split; [apply E|]. split.
  - unfold filtered. rewrite E. reflexivity.
  - unfold captureFrame_pixels. rewrite E. destruct (negb _); reflexivity.
Qed.

Lemma filter_without_case_is_identity_witness :
  filtered "sepia" [1; 2; 3; 4; 5; 6; 7; 8] = [1; 2; 3; 4; 5; 6; 7; 8] /\
  captureFrame_pixels [1; 2; 3; 4] "original" (Some 0%nat) = [1; 2; 3; 4].
Proof.
  split.
  - apply (filter_without_case_is_identity "sepia" _ None).
    simpl. intuition discriminate.
  - apply (filter_without_case_is_identity "original" _ (Some 0%nat)).
    simpl. intuition discriminate.
Defined.

(** X2: every pixel is transformed on its own: filtering a buffer is
    filtering its first pixel and filtering the rest, so the output of a
    pixel does not depend on where it stands or on any other pixel. *)
Theorem filtered_pixel_by_pixel (filterName : string) (r g b a : Z) (rest : list Z) :
  filtered filterName (r :: g :: b :: a :: rest)
  = filtered filterName [r; g; b; a] ++ filtered filterName rest.
Proof.
  destruct (kernel_of filterName) as [body|] eqn:K.
  - pose proof (kernel_of_In _ _ K) as Hin.
    rewrite !(filtered_kernel _ _ _ K).
    destruct (kernel_first_pixel body r g b a rest Hin) as (r' & g' & b' & Hany & _).
    cbn [length].
    rewrite (for4_next _ 0 (S (S (S (S (length rest)))))) by lia.
    rewrite (for4_next 3 0 4) by lia.
    rewrite (Hany a rest), (Hany a []).
    rewrite (for4_done 3) by lia. cbn [snd data].
    pose proof (shifts_for4 [r'; g'; b'; a] body (S (S (S (length rest))))
                  (fun i j => kernel_shifts body _ i j Hin) 4%nat 0%nat (length rest)
                  eq_refl rest None) as Hs.
    cbn [length app Nat.add] in Hs |- *. rewrite Hs. unfold behind. cbn [snd data].
    replace (S (S (S (length rest)))) with (length rest + 3)%nat by lia.
    rewrite for4_runs_to_completion. reflexivity.
  - apply kernel_of_cases in K.
    pose proof (filter_without_case_is_identity_aux filterName K) as Hid.
    rewrite (proj2 (Hid (r :: g :: b :: a :: rest) None)),
      (proj2 (Hid [r; g; b; a] None)), (proj2 (Hid rest None)).
    reflexivity.
Qed.

Lemma filtered_length filterName pixels :
  length (filtered filterName pixels) = length pixels.
Proof.
  unfold filtered.
  apply (applyPixelFilter_preserves (fun d => length d = length pixels) filterName
           (store_length (length pixels)) {| data := pixels; fault := None |}).
  reflexivity.
Qed.

(** One pixel: three new colour channels, which do not depend on alpha,
    and the alpha it came with. *)
Lemma filtered_one_pixel filterName r g b :
  exists r' g' b', forall a, filtered filterName [r; g; b; a] = [r'; g'; b'; a].
Proof.
  destruct (kernel_of filterName) as [body|] eqn:K.
  - destruct (kernel_first_pixel body r g b 0 [] (kernel_of_In _ _ K))
      as (r' & g' & b' & Hany & _).
    exists r', g', b'. intros a.
    rewrite (filtered_kernel _ _ _ K). cbn [length].
    rewrite (for4_next 3 0 4) by lia. rewrite (Hany a []).
    rewrite (for4_done 3) by lia. reflexivity.
  - exists r, g, b. intros a. apply kernel_of_cases in K.
    apply (filter_without_case_is_identity_aux filterName K _ None).
Qed.

Lemma pixels_ind (P : list Z -> Prop) :
  (forall d, (length d < 4)%nat -> P d) ->
  (forall r g b a rest, P rest -> P (r :: g :: b :: a :: rest)) ->
  forall d, P d.
Proof.
  intros Hshort Hstep d.
  assert (H : forall n d, (length d <= n)%nat -> P d).
  { clear d. induction n as [|n IH]; intros d Hn.
    - apply Hshort. lia.
    - destruct d as [|r [|g [|b [|a rest]]]]; try (apply Hshort; simpl; lia).
      apply Hstep, IH. simpl in Hn. lia. }
  apply (H (length d)). lia.
Qed.

(** X3: alpha is untouched: under every filter name and in every buffer,
    each fourth slot holds after the filter what it held before, and
    the colour channels written for a pixel do not depend on its alpha. *)
Theorem filter_keeps_alpha (filterName : string) :
  (forall (pixels : list Z) (j : nat),
     (j mod 4 = 3)%nat -> filtered filterName pixels !! j = pixels !! j) /\
  (forall r g b a a' : Z,
     take 3 (filtered filterName [r; g; b; a]) = take 3 (filtered filterName [r; g; b; a'])).
Proof.
  split.
  - intros pixels. induction pixels as [d Hd | r g b a rest IH] using pixels_ind; intros j Hj.
    + assert (3 <= j)%nat.
      { destruct j as [|[|[|j]]]; try discriminate Hj. lia. }
      rewrite !lookup_ge_None_2; [reflexivity | lia | rewrite filtered_length; lia].
    + rewrite filtered_pixel_by_pixel.
      destruct (filtered_one_pixel filterName r g b) as (r' & g' & b' & H1).
      rewrite H1.
      destruct j as [|[|[|[|j]]]]; try discriminate Hj; [reflexivity|].
      cbn [app lookup list_lookup]. simpl. apply IH.
      replace (S (S (S (S j)))) with (j + 1 * 4)%nat in Hj by lia.
      rewrite Nat.Div0.mod_add in Hj. exact Hj.
  - intros r g b a a'.
    destruct (filtered_one_pixel filterName r g b) as (r' & g' & b' & H1).
    rewrite !H1. reflexivity.
Qed.

(** X4: [mono] writes a grey: in every buffer, the three colour channels
    of every whole pixel are equal after the filter. *)
Theorem mono_is_grey (pixels : list Z) (i : nat) :
  (4 * i + 3 < length pixels)%nat ->
  exists v,
    filtered "mono" pixels !! (4 * i)%nat = Some v /\
    filtered "mono" pixels !! (4 * i + 1)%nat = Some v /\
    filtered "mono" pixels !! (4 * i + 2)%nat = Some v.
Proof.
  revert pixels. induction i as [|i IH]; intros pixels H.
  - destruct pixels as [|r [|g [|b [|a rest]]]]; simpl in H; try lia.
    rewrite filtered_pixel_by_pixel.
    eexists. cbv -[JS.ToUint8Clamp clamp JS.of_Z filtered app].
    repeat split; reflexivity.
  - destruct pixels as [|r [|g [|b [|a rest]]]]; simpl in H; try lia.
    rewrite filtered_pixel_by_pixel.
    destruct (filtered_one_pixel "mono" r g b) as (r' & g' & b' & H1). rewrite H1.
    destruct (IH rest) as (v & E0 & E1 & E2); [lia|].
    exists v.
    replace (4 * S i)%nat with (4 + 4 * i)%nat by lia.
    cbn [app Nat.add]. simpl lookup.
    repeat split; assumption.
Qed.

Lemma mono_is_grey_witness :
  exists v,
    filtered "mono" [200; 100; 50; 255; 10; 20; 30; 40] !! (4 * 1)%nat = Some v /\
    filtered "mono" [200; 100; 50; 255; 10; 20; 30; 40] !! (4 * 1 + 1)%nat = Some v /\
    filtered "mono" [200; 100; 50; 255; 10; 20; 30; 40] !! (4 * 1 + 2)%nat = Some v.
Proof. apply (mono_is_grey _ 1). simpl. lia. Defined.

Lemma filter_keeps_alpha_witness :
  filtered "vintage" [200; 100; 50; 17; 10; 20; 30; 40] !! 7%nat = Some 40.
Proof.
  rewrite (proj1 (filter_keeps_alpha "vintage") _ 7%nat eq_refl). reflexivity.
Defined.

End PixelByPixel.

(** ** Order on numbers *)

Section FloatOrder.
Local Open Scope float_scope.

Lemma SFcompare_antisym (x y : spec_float) :
  SFcompare y x = option_map CompOpp (SFcompare x y).
Proof.
  destruct x as [sx|sx| |sx mx ex], y as [sy|sy| |sy my ey]; simpl;
    try destruct sx; try destruct sy; simpl; try reflexivity.
  all: assert (Hm : Pos.compare_cont Eq my mx = CompOpp (Pos.compare_cont Eq mx my))
    by (rewrite Pos.compare_cont_antisym; reflexivity).
  all: rewrite (Z.compare_antisym ex ey), Hm.
  all: destruct (ex ?= ey)%Z; simpl; try reflexivity.
  all: rewrite ?CompOpp_involutive; reflexivity.
Qed.

Lemma SFcompare_refl (x : spec_float) :
  x <> S754_nan -> SFcompare x x = Some Eq.
Proof.
  destruct x as [s|s| |s m e]; simpl; intros H; try congruence.
  - destruct s; reflexivity.
  - rewrite Z.compare_refl, Pos.compare_cont_refl. destruct s; reflexivity.
Qed.

Lemma SFcompare_some (x y : spec_float) :
  x <> S754_nan -> y <> S754_nan -> exists c, SFcompare x y = Some c.
Proof.
  destruct x as [sx|sx| |sx mx ex], y as [sy|sy| |sy my ey]; simpl; intros Hx Hy;
    try congruence; eexists; reflexivity.
Qed.

Lemma is_nan_spec (x : float) : is_nan x = true <-> Prim2SF x = S754_nan.
Proof.
  unfold is_nan. rewrite FloatAxioms.eqb_spec. unfold SFeqb.
  destruct (Prim2SF x) as [s|s| |s m e] eqn:E.
  - simpl. split; discriminate.
  - rewrite SFcompare_refl by discriminate. split; discriminate.
  - simpl. split; reflexivity.
  - rewrite SFcompare_refl by discriminate. split; discriminate.
Qed.

Lemma not_nan_spec (x : float) : is_nan x = false -> Prim2SF x <> S754_nan.
Proof. intros H E. apply is_nan_spec in E. congruence. Qed.

Lemma leb_refl (x : float) : is_nan x = false -> (x <=? x) = true.
Proof.
  intros H. rewrite FloatAxioms.leb_spec. unfold SFleb.
  rewrite SFcompare_refl; [reflexivity | apply not_nan_spec, H].
Qed.

Lemma ltb_leb (x y : float) : (x <? y) = true -> (x <=? y) = true.
Proof.
  rewrite FloatAxioms.ltb_spec, FloatAxioms.leb_spec. unfold SFltb, SFleb.
  destruct (SFcompare (Prim2SF x) (Prim2SF y)) as [[]|]; congruence.
Qed.

Lemma not_ltb_leb (x y : float) :
  is_nan x = false -> is_nan y = false -> (x <? y) = false -> (y <=? x) = true.
Proof.
  intros Hx Hy. rewrite FloatAxioms.ltb_spec, FloatAxioms.leb_spec. unfold SFltb, SFleb.
  rewrite (SFcompare_antisym (Prim2SF x) (Prim2SF y)).
  destruct (SFcompare_some (Prim2SF x) (Prim2SF y)) as [c ->];
    try (apply not_nan_spec; assumption).
  destruct c; simpl; congruence.
Qed.

(** [Math.min] of two numbers is one of them and is below both. *)
Lemma min_spec (a b : float) :
  is_nan a = false -> is_nan b = false ->
  let r := JSMath.min a b in
  (r = a \/ r = b) /\ (r <=? a) = true /\ (r <=? b) = true.
Proof.
  intros Ha Hb. unfold JSMath.min. rewrite Ha, Hb. simpl.
  destruct (a <? b) eqn:E1.
  - split; [auto|]. split; [apply leb_refl, Ha | apply ltb_leb, E1].
  - destruct (b <? a) eqn:E2.
    + split; [auto|]. split; [apply ltb_leb, E2 | apply leb_refl, Hb].
    + pose proof (not_ltb_leb _ _ Ha Hb E1). pose proof (not_ltb_leb _ _ Hb Ha E2).
      destruct (get_sign a); (split; [auto|]); split;
        auto using leb_refl.
Qed.

(** [Math.max] of two numbers is one of them and is above both. *)
Lemma max_spec (a b : float) :
  is_nan a = false -> is_nan b = false ->
  let r := JSMath.max a b in
  (r = a \/ r = b) /\ (a <=? r) = true /\ (b <=? r) = true.
Proof.
  intros Ha Hb. unfold JSMath.max. rewrite Ha, Hb. simpl.
  destruct (a <? b) eqn:E1.
  - split; [auto|]. split; [apply ltb_leb, E1 | apply leb_refl, Hb].
  - destruct (b <? a) eqn:E2.
    + split; [auto|]. split; [apply leb_refl, Ha | apply ltb_leb, E2].
    + pose proof (not_ltb_leb _ _ Ha Hb E1). pose proof (not_ltb_leb _ _ Hb Ha E2).
      destruct (get_sign a); (split; [auto|]); split;
        auto using leb_refl.
Qed.

Lemma min_nan_l (a b : float) : is_nan a = true -> JSMath.min a b = nan.
Proof. intros H. unfold JSMath.min. rewrite H. reflexivity. Qed.

Lemma min_nan_r (a b : float) : is_nan b = true -> JSMath.min a b = nan.
Proof. intros H. unfold JSMath.min. rewrite H, orb_true_r. reflexivity. Qed.

Lemma max_nan_r (a b : float) : is_nan b = true -> JSMath.max a b = nan.
Proof. intros H. unfold JSMath.max. rewrite H, orb_true_r. reflexivity. Qed.

(** [Math.max(lo, Math.min(., hi))]: between [lo] and [hi] when
    [lo <= hi], whatever the order of the arguments of [Math.min]. *)
Lemma clamp_between (lo hi y : float) :
  is_nan lo = false -> is_nan hi = false -> is_nan y = false ->
  (lo <=? hi) = true -> (y <=? hi) = true ->
  let r := JSMath.max lo y in
  is_nan r = false /\ (lo <=? r) = true /\ (r <=? hi) = true.
Proof.
  intros Hlo Hhi Hy Hle Hyle r.
  destruct (max_spec lo y Hlo Hy) as ([E|E] & H1 & H2); fold r in E, H1, H2;
    rewrite E in *; auto.
Qed.

End FloatOrder.

(** ** Pinch gestures and zoom *)

Section Pinch.
Local Open Scope float_scope.

Lemma min_with_bound (hi x : float) :
  is_nan hi = false -> is_nan x = false ->
  is_nan (JSMath.min hi x) = false /\ is_nan (JSMath.min x hi) = false /\
  (JSMath.min hi x <=? hi) = true /\ (JSMath.min x hi <=? hi) = true.
Proof.
  intros Hhi Hx.
  destruct (min_spec hi x Hhi Hx) as ([E|E] & H1 & H2);
    destruct (min_spec x hi Hx Hhi) as ([E'|E'] & H1' & H2');
    cbv zeta in *; repeat split; try assumption;
    first [rewrite E | rewrite E']; assumption.
Qed.

(** X5: the scale a pinch gives to a placed element is [NaN] exactly
    when the product of the initial scale and the distance ratio is (a
    pinch that starts with both fingers on one point), and otherwise
    lies between 0.3 and 3. *)
Theorem pinchScale_range (initialScale initialDistance currentDistance : float) :
  let product := initialScale * (currentDistance / initialDistance) in
  let r := DraggableElement.pinchScale initialScale initialDistance currentDistance in
  (is_nan product = true -> is_nan r = true) /\
  (is_nan product = false ->
   is_nan r = false /\ (0.3 <=? r) = true /\ (r <=? 3) = true).
Proof.
  intros product r. unfold r, DraggableElement.pinchScale. cbv zeta. fold product.
  split; intros Hp.
  - rewrite (min_nan_r 3 product Hp). reflexivity.
  - destruct (min_with_bound 3 product eq_refl Hp) as (Hn & _ & Hle & _).
    apply clamp_between; try assumption; reflexivity.
Qed.

Lemma pinchScale_range_witness :
  (0.3 <=? DraggableElement.pinchScale 1 100 1000) = true /\
  (DraggableElement.pinchScale 1 100 1000 <=? 3) = true /\
  is_nan (DraggableElement.pinchScale 1 0 0) = true.
Proof.
  destruct (pinchScale_range 1 100 1000) as (_ & H).
  destruct (H eq_refl) as (_ & H1 & H2).
  destruct (pinchScale_range 1 0 0) as (H3 & _).
  split; [exact H1|]. split; [exact H2 | exact (H3 eq_refl)].
Defined.



End Pinch.

(** ** Camera controls *)

Section CameraControls.
Import Controls.

(** [n] presses of a button whose handler may come back with
    [undefined]. *)
Fixpoint presses {A} (press : A -> option A) (n : nat) (a : A) : option A :=
  match n with
  | O => Some a
  | S k => match press a with
           | Some a' => presses press k a'
           | None => None
           end
  end.

(** X7: the flash button walks off, on, auto, torch and back: the next
    mode is always one of the four, each mode comes back after exactly
    four presses and not before, and a mode outside the list goes to
    ['off']; flipping the camera twice gives the facing mode back. *)
Theorem flash_and_flip_cycle :
  (forall prev, exists m, cycleFlash prev = Some m /\ In m FLASH_MODES) /\
  (forall prev, ~ In prev FLASH_MODES -> cycleFlash prev = Some "off") /\
  (forall m, In m FLASH_MODES ->
     presses cycleFlash 1 m <> Some m /\
     presses cycleFlash 2 m <> Some m /\
     presses cycleFlash 3 m <> Some m /\
     presses cycleFlash 4 m = Some m) /\
  (forall prev, In (flipCamera prev) ["environment"; "user"]) /\
  (forall m, In m ["environment"; "user"] -> flipCamera (flipCamera m) = m).
Proof.
  assert (Hcases : forall prev,
            In prev FLASH_MODES \/
            (~ In prev FLASH_MODES /\ cycleFlash prev = Some "off")).
  { intros prev. unfold cycleFlash, indexOf, findIndex, FLASH_MODES.
    cbn [findIndex_from In].
    destruct (String.eqb_spec "off" prev); [auto|].
    destruct (String.eqb_spec "on" prev); [auto|].
    destruct (String.eqb_spec "auto" prev); [auto 6|].
    destruct (String.eqb_spec "torch" prev); [auto 6|].
    right. split; [intuition | reflexivity]. }
  assert (Hin : forall m, In m FLASH_MODES ->
            presses cycleFlash 1 m <> Some m /\
            presses cycleFlash 2 m <> Some m /\
            presses cycleFlash 3 m <> Some m /\
            presses cycleFlash 4 m = Some m).
  { intros m Hm. simpl in Hm.
    destruct Hm as [<-|[<-|[<-|[<-|[]]]]]; vm_compute; repeat split; discriminate. }
  split; [|split; [|split; [exact Hin|split]]].
  - intros prev. destruct (Hcases prev) as [H|[_ H]].
    + simpl in H. destruct H as [<-|[<-|[<-|[<-|[]]]]]; eexists;
        (split; [vm_compute; reflexivity | simpl; auto 6]).
    + exists "off". split; [exact H | simpl; auto].
  - intros prev Hn. destruct (Hcases prev) as [H|[_ H]]; [contradiction | exact H].
  - intros prev. unfold flipCamera. destruct (String.eqb prev "environment"); simpl; auto.
  - intros m [<-|[<-|[]]]; reflexivity.
Qed.

Lemma flash_and_flip_cycle_witness :
  cycleFlash "bright" = Some "off" /\
  presses cycleFlash 4 "auto" = Some "auto".
Proof.
  destruct flash_and_flip_cycle as (_ & Hout & Hin & _).
  split.
  - apply Hout. simpl. intuition discriminate.
  - apply Hin. simpl. auto.
Defined.

Definition filter_names : list string :=
  ["original"; "warm"; "cool"; "vibrant"; "vintage"; "pastel"; "mono"; "soft"; "crisp"; "fade"].

(** The keys of [FILTER_STYLES] are the ten names, and every style is a
    non-empty string. *)
Lemma FILTER_STYLES_keys (id : string) :
  (In id filter_names ->
   exists style, Camera.FILTER_STYLES !! id = Some style /\ style <> "") /\
  (~ In id filter_names -> Camera.FILTER_STYLES !! id = None).
Proof.
  split.
  - intros H. simpl in H.
    repeat (destruct H as [<-|H];
            [eexists; split; [vm_compute; reflexivity | discriminate]|]).
    destruct H.
  - intros H. unfold Camera.FILTER_STYLES.
    apply not_elem_of_list_to_map_1.
    intros Hin. apply H, list_elem_of_In. exact Hin.
Qed.

Lemma setFilter_spec (id sel : string) :
  (In id filter_names -> setFilter id sel = id) /\
  (~ In id filter_names -> setFilter id sel = sel).
Proof.
  unfold setFilter. split; intros H.
  - destruct (proj1 (FILTER_STYLES_keys id) H) as (style & -> & Hne).
    destruct (String.eqb_spec style ""); [contradiction | reflexivity].
  - rewrite (proj2 (FILTER_STYLES_keys id) H). reflexivity.
Qed.



(** The selection after one press of the filter button. *)
Definition press_filter (selectedFilter : string) : option string :=
  match pressFilterButton selectedFilter with
  | Some (sel, _) => Some sel
  | None => None
  end.

(** X9: the filter button always finds a next filter, and [setFilter]
    always accepts it (the ids of [FILTERS] are keys of [FILTER_STYLES]);
    from ['original'] the presses visit the ten filters in the order of
    the list, each filter comes back after ten presses, and a selection
    that is not in the list is followed by ['original']. *)
Theorem filter_button_cycles :
  (forall sel, exists f,
     nextFilter sel = Some f /\ In f FILTERS /\
     pressFilterButton sel = Some (filter_id f, filter_label f)) /\
  (forall k, (k < 10)%nat -> presses press_filter k "original" = filter_names !! k) /\
  (forall name, In name filter_names -> presses press_filter 10 name = Some name) /\
  (forall sel, ~ In sel filter_names -> press_filter sel = Some "original").
Proof.
  assert (Hcases : forall sel,
            In sel filter_names \/
            (~ In sel filter_names /\ nextFilter sel = FILTERS !! 0%nat)).
  { intros sel. unfold nextFilter, findIndex, FILTERS, filter_names.
    cbn [findIndex_from In filter_id].
    repeat match goal with
           | |- context [String.eqb ?a sel] =>
               destruct (String.eqb_spec a sel); [auto 12|]
           end.
    right. split; [intuition | reflexivity]. }
  assert (Hnext : forall sel, exists f,
            nextFilter sel = Some f /\ In f FILTERS /\
            pressFilterButton sel = Some (filter_id f, filter_label f)).
  { intros sel.
    assert (Hf : exists f, nextFilter sel = Some f /\ In f FILTERS).
    { destruct (Hcases sel) as [H|[_ H]].
      - simpl in H.
        repeat (destruct H as [<-|H];
                [eexists; split; [vm_compute; reflexivity | simpl; auto 12]|]).
        destruct H.
      - eexists. split; [exact H | simpl; auto]. }
    destruct Hf as (f & Hf & Hin). exists f. split; [exact Hf|]. split; [exact Hin|].
    unfold pressFilterButton. rewrite Hf.
    rewrite (proj1 (setFilter_spec (filter_id f) sel)); [reflexivity|].
    simpl in Hin.
    repeat (destruct Hin as [<-|Hin]; [simpl; auto 12|]). destruct Hin. }
  split; [exact Hnext|]. split; [|split].
  - intros k Hk.
    do 10 (destruct k as [|k]; [vm_compute; reflexivity|]). lia.
  - intros name H. simpl in H.
    repeat (destruct H as [<-|H]; [vm_compute; reflexivity|]). destruct H.
  - intros sel Hn. destruct (Hcases sel) as [H|[_ H]]; [contradiction|].
    unfold press_filter, pressFilterButton. rewrite H. simpl.
    rewrite (proj1 (setFilter_spec "original" sel)); [reflexivity | simpl; auto].
Qed.

Lemma filter_button_cycles_witness :
  presses press_filter 10 "mono" = Some "mono" /\
  press_filter "sepia" = Some "original".
Proof.
  destruct filter_button_cycles as (_ & _ & Hcyc & Hout).
  split.
  - apply Hcyc. simpl. auto 12.
  - apply Hout. simpl. intuition discriminate.
Defined.

End CameraControls.

(** ** The modes of the application *)

Section AppModes.
Import App.

(** The camera is shown without an image; the editor has one. *)
Definition consistent (s : state) : Prop :=
  (mode s = "CAMERA" /\ capturedImage s = None) \/
  (mode s = "EDITOR" /\ exists url, capturedImage s = Some url /\ url <> "").

Lemma step_consistent (s : state) (e : event) : consistent s -> consistent (step s e).
Proof.
  intros H. destruct e; simpl; try exact H; try (left; split; reflexivity).
  unfold handleCapture. destruct imageData as [url|]; [|exact H].
  destruct (String.eqb_spec url ""); [exact H|].
  right. split; [reflexivity|]. exists url. split; [reflexivity | assumption].
Qed.

(** X10: whatever happens, exactly one of the camera and the editor is on
    screen, and the editor is only on screen with a captured image; a
    capture that produced nothing ([null] or an empty URL) changes
    nothing, and both Retake and Done drop the image and show the
    camera. *)
Theorem app_shows_one_layer (events : list event) :
  let s := run events App.initial in
  showsCamera s = negb (showsEditor s) /\
  (showsEditor s = true -> exists url, capturedImage s = Some url /\ url <> "") /\
  (forall s0, handleCapture None s0 = s0 /\ handleCapture (Some "") s0 = s0) /\
  (forall s0, showsCamera (handleRetake s0) = true /\ capturedImage (handleRetake s0) = None /\
              showsCamera (handleDone s0) = true /\ capturedImage (handleDone s0) = None).
Proof.
  intros s.
  assert (H : consistent s).
  { unfold s, run.
    assert (G : forall s0, consistent s0 -> consistent (fold_left step events s0)).
    { induction events as [|e es IH]; intros s0 H0; simpl; [exact H0|].
      apply IH, step_consistent, H0. }
    apply G. left. split; reflexivity. }
  split; [|split; [|split]].
  - unfold showsCamera, showsEditor.
    destruct H as [[Hm Hc]|[Hm (url & Hc & Hne)]]; rewrite Hm, Hc; simpl; [reflexivity|].
    destruct (String.eqb_spec url ""); [contradiction | reflexivity].
  - intros Hs. unfold showsEditor in Hs.
    destruct H as [[Hm Hc]|[Hm (url & Hc & Hne)]].
    + rewrite Hm in Hs. discriminate.
    + exists url. split; assumption.
  - intros s0. split; reflexivity.
  - intros s0. repeat split; reflexivity.
Qed.

End AppModes.

(** ** Placed elements and the drawing order *)

Section PlacedElements.
Import Canvas ExportEngine EditorLayer.








(** X13: removing an element leaves no element with its id and keeps
    every other element, in order; an element that was just added under
    a fresh id is exactly what its removal takes away. *)
Theorem removeElement_spec (id : string) (placed : list element) :
  Forall (fun el => el_id el <> id) (removeElement id placed) /\
  (Forall (fun el => el_id el <> id) placed -> removeElement id placed = placed) /\
  (forall el, el_id el = id -> Forall (fun el => el_id el <> id) placed ->
     removeElement id (placed ++ [el]) = placed) /\
  (forall other, other <> id ->
     List.filter (fun el => String.eqb (el_id el) other) (removeElement id placed)
     = List.filter (fun el => String.eqb (el_id el) other) placed).
Proof.
  assert (Hkeep : forall l, Forall (fun el => el_id el <> id) l -> removeElement id l = l).
  { unfold removeElement.
    induction 1 as [|el l Hel _ IH]; cbn [List.filter]; [reflexivity|].
    destruct (String.eqb_spec (el_id el) id); [contradiction|]. cbn [negb].
    f_equal. exact IH. }
  split; [|split; [exact (Hkeep placed)|split]].
  - apply Forall_forall. intros el Hin.
    apply list_elem_of_In, filter_In in Hin. destruct Hin as [_ Hin].
    destruct (String.eqb_spec (el_id el) id); [discriminate | assumption].
  - intros el Hid Hfresh. unfold removeElement. rewrite List.filter_app.
    cbn [List.filter]. rewrite Hid, String.eqb_refl. cbn [negb].
    rewrite app_nil_r. apply Hkeep, Hfresh.
  - intros other Hne. unfold removeElement.
    induction placed as [|el l IH]; cbn [List.filter]; [reflexivity|].
    destruct (String.eqb_spec (el_id el) id) as [E|E]; cbn [negb List.filter].
    + destruct (String.eqb_spec (el_id el) other); [congruence | exact IH].
    + destruct (String.eqb (el_id el) other); rewrite IH; reflexivity.
Qed.

End PlacedElements.

(** ** Sharing *)

Section Sharing.
Import Canvas ExportEngine Share.

(** The number of flags a share result sets. *)
Definition flags (r : shareResult) : nat :=
  (if shared r then 1 else 0) + (if cancelled r then 1 else 0)
  + (if error r then 1 else 0) + (if notSupported r then 1 else 0).

(** [shareImage] always answers, with exactly one of the four
    flags: [shared] exactly when the platform can share the file and the
    share went through, [cancelled] exactly when the user closed the
    sheet, [error] exactly when the share failed otherwise, and
    [notSupported] exactly when the platform has no [canShare] or it
    refuses the file. *)
Theorem shareImage_one_flag (canShare : option bool) (outcome : shareOutcome) :
  let r := shareImage canShare outcome in
  flags r = 1%nat /\
  (shared r = true <-> canShare = Some true /\ outcome = ShareResolved) /\
  (cancelled r = true <-> canShare = Some true /\ outcome = ShareAborted) /\
  (error r = true <-> canShare = Some true /\ outcome = ShareFailed) /\
  (notSupported r = true <-> canShare <> Some true).
Proof.
  destruct canShare as [[|]|], outcome; simpl;
    repeat split; try reflexivity; try discriminate; try tauto;
    try (intros [H1 H2]; discriminate); try (intros H; exfalso; apply H; reflexivity);
    congruence.
Qed.

(** X14: the Done button, over the whole chain from the encoders to the
    share sheet: it always ends and always clears the exporting flag; it
    leaves the editor exactly when the image was encoded and the share
    went through or was closed by the user (and a callback was given);
    a failed encoding is logged and never reaches the share; an
    unsupported platform gets the alert and stays in the editor. *)
Theorem done_button_outcomes (measureText : font -> string -> float) (Blob : Type)
    (toDataURL : list cmd -> string + string) (toBlob : list cmd -> option Blob)
    (req : request) (hasOnDone exportingBefore : bool)
    (canShare : option bool) (outcome : shareOutcome) :
  let calls := exportImage_calls measureText req in
  let exported := exportImage measureText Blob toDataURL toBlob req in
  let encoded := (exists url, toDataURL calls = inl url) /\ toBlob calls <> None in
  exists report,
    handleDone true hasOnDone exportingBefore exported canShare outcome = Some report /\
    isExporting report = false /\
    (exited report = true <->
       hasOnDone = true /\ encoded /\ canShare = Some true /\
       (outcome = ShareResolved \/ outcome = ShareAborted)) /\
    (loggedError report = true <-> ~ encoded) /\
    (alerted report = true <-> encoded /\ canShare <> Some true) /\
    (~ encoded -> exportAndShare exported canShare outcome
                  = match toDataURL calls with
                    | inr e => JS.Rejected e
                    | inl _ => JS.Rejected "Failed to create image blob"
                    end).
Proof.
  intros calls exported encoded. unfold exported, exportImage, encoded. fold calls.
  destruct (toDataURL calls) as [url|err]; simpl.
  - destruct (toBlob calls) as [b|]; simpl.
    + assert (He : (exists url0, @inl string string url = inl url0) /\ Some b <> None)
        by (split; [eexists; reflexivity | discriminate]).
      destruct canShare as [[|]|], outcome, hasOnDone; simpl; eexists;
        (split; [reflexivity|]); simpl;
        repeat split; try discriminate; try tauto; try congruence;
        try (intros (H1 & H2 & H3 & [H4|H4]); discriminate);
        try (intros (H1 & H2); congruence);
        try (intros _; split; [exact He | discriminate]; fail);
        try (intros _; repeat split; try exact (proj1 He); try discriminate; auto; fail).
    + eexists. split; [reflexivity|]. simpl.
      repeat split; try discriminate; try tauto; try congruence;
        try (intros (_ & (_ & H) & _); congruence);
        try (intros _ (_ & H); congruence);
        try (intros ((_ & H) & _); congruence).
  - eexists. split; [reflexivity|]. simpl.
    repeat split; try discriminate; try tauto; try congruence;
      try (intros (_ & ((u & H) & _) & _); discriminate);
      try (intros _ ((u & H) & _); discriminate);
      try (intros (((u & H) & _) & _); discriminate).
Qed.

End Sharing.

(** ** The drawing tool, gesture by gesture *)

Section Gestures.
Import ExportEngine DrawTool.

(** The pointer moves of one finger. *)
Definition moves (ps : list point) : list event := map (fun p => DrawMove 1 (Some p)) ps.

Lemma run_app (es1 es2 : list event) (s : state) :
  run (es1 ++ es2) s = run es2 (run es1 s).
Proof. unfold run. apply fold_left_app. Qed.

(** While a stroke is being drawn, every move adds its point at the
    end. *)
Lemma run_moves (ps : list point) (s : state) (cur : stroke) :
  isActive s = true -> isDrawing s = true -> currentStroke s = Some cur ->
  run (moves ps) s
  = {| isActive := true; isDrawing := true;
       currentStroke := Some {| stroke_id := stroke_id cur; stroke_color := stroke_color cur;
                                stroke_size := stroke_size cur;
                                points := points cur ++ ps |};
       strokeColor := strokeColor s; brushSize := brushSize s; strokes := strokes s |}.
Proof.
  revert s cur. induction ps as [|p ps IH]; intros s cur Ha Hd Hc.
  - simpl. rewrite app_nil_r. destruct s, cur; simpl in *. subst. reflexivity.
  - cbn [moves map run fold_left]. fold (moves ps). fold (run (moves ps)).
    cbn [step]. unfold handleDrawMove. rewrite Ha, Hd, Hc. cbn [negb orb Nat.ltb Nat.leb].
    rewrite (IH _ {| stroke_id := stroke_id cur; stroke_color := stroke_color cur;
                     stroke_size := stroke_size cur; points := points cur ++ [p] |});
      try reflexivity.
    cbn [stroke_id stroke_color stroke_size points strokeColor brushSize strokes].
    rewrite <- app_assoc. reflexivity.
Qed.

(** The state after the first point of a stroke. *)
Lemma run_start (p0 : point) (now : Z) (s : state) :
  isActive s = true ->
  handleDrawStart 1 (Some p0) now s
  = {| isActive := true; isDrawing := true;
       currentStroke := Some {| stroke_id := now; stroke_color := strokeColor s;
                                stroke_size := brushSize s; points := [p0] |};
       strokeColor := strokeColor s; brushSize := brushSize s; strokes := strokes s |}.
Proof. intros Ha. unfold handleDrawStart. rewrite Ha. reflexivity. Qed.

(** X15: one finger down at [p0], moved through [ps] and lifted, while
    the tool is active, keeps exactly one new stroke: the points in the
    order they were drawn, in the colour and brush size selected when
    the finger went down; a tap (no move) keeps nothing; either way no
    stroke is left in progress. *)
Theorem gesture_commits_stroke (s : state) (p0 : point) (ps : list point) (now : Z) :
  isActive s = true ->
  let s' := run ([DrawStart 1 (Some p0) now] ++ moves ps ++ [DrawEnd]) s in
  strokes s'
  = match ps with
    | [] => strokes s
    | _ :: _ => strokes s ++ [{| stroke_id := now; stroke_color := strokeColor s;
                                 stroke_size := brushSize s; points := p0 :: ps |}]
    end /\
  currentStroke s' = None /\ isDrawing s' = false /\
  strokeColor s' = strokeColor s /\ brushSize s' = brushSize s.
Proof.
  intros Ha s'. unfold s'.
  rewrite !run_app.
  change (run [DrawStart 1 (Some p0) now] s) with (handleDrawStart 1 (Some p0) now s).
  rewrite (run_start p0 now s Ha).
  rewrite (run_moves ps _ {| stroke_id := now; stroke_color := strokeColor s;
                             stroke_size := brushSize s; points := [p0] |});
    try reflexivity.
  unfold run. cbn [fold_left step]. unfold handleDrawEnd.
  cbn [isDrawing currentStroke points stroke_id stroke_color stroke_size strokes
       strokeColor brushSize isActive app].
  destruct ps as [|p ps]; cbn; repeat split; reflexivity.
Qed.

Lemma gesture_commits_stroke_witness :
  let p a b := {| p_x := a; p_y := b |} in
  let s := step DrawTool.initial EnterDrawMode in
  strokes (run ([DrawStart 1 (Some (p 1 2)) 7] ++ moves [p 3 4; p 5 6] ++ [DrawEnd])%float s)
  = [{| stroke_id := 7; stroke_color := "#FFFFFF"; stroke_size := "small";
        points := [p 1 2; p 3 4; p 5 6]%float |}].
Proof.
  intros p s.
  exact (proj1 (gesture_commits_stroke s (p 1 2)%float [p 3 4; p 5 6]%float 7 eq_refl)).
Defined.

(** X16: Undo takes back the stroke of the last gesture and nothing
    else: a gesture followed by Undo leaves the strokes as they were
    before it; Undo with no stroke and Clear leave none. *)
Theorem undo_takes_back_gesture (s : state) (p0 : point) (ps : list point) (now : Z) :
  isActive s = true -> ps <> [] ->
  strokes (run ([DrawStart 1 (Some p0) now] ++ moves ps ++ [DrawEnd] ++ [Undo]) s)
  = strokes s /\
  (forall s0, strokes s0 = [] -> strokes (handleUndo s0) = []) /\
  (forall s0, strokes (handleClear s0) = []).
Proof.
  intros Ha Hps. split; [|split].
  - rewrite !app_assoc, run_app, <- !app_assoc.
    destruct (gesture_commits_stroke s p0 ps now Ha) as (Hs & _).
    cbv zeta in Hs. cbn [run fold_left step]. unfold handleUndo. cbn [strokes].
    fold (run ([DrawStart 1 (Some p0) now] ++ moves ps ++ [DrawEnd]) s).
    rewrite Hs. destruct ps as [|p ps]; [contradiction|].
    rewrite length_app. cbn [length].
    destruct (Nat.ltb_spec 0 (length (strokes s) + 1)); [|lia].
    replace (length (strokes s) + 1 - 1)%nat with (length (strokes s)) by lia.
    apply take_app_length.
  - intros s0 H. unfold handleUndo. cbn [strokes]. rewrite H. reflexivity.
  - reflexivity.
Qed.

Lemma undo_takes_back_gesture_witness :
  let p a b := {| p_x := a; p_y := b |} in
  let s := step DrawTool.initial EnterDrawMode in
  strokes (run ([DrawStart 1 (Some (p 1 2)) 7] ++ moves [p 3 4] ++ [DrawEnd] ++ [Undo])%float s)
  = [].
Proof.
  intros p s.
  refine (proj1 (undo_takes_back_gesture s (p 1 2)%float [p 3 4]%float 7 eq_refl _)).
  discriminate.
Defined.

Lemma run_one (e : event) (s : state) : run [e] s = step s e.
Proof. reflexivity. Qed.

Lemma run_moves_idle (ps : list point) (s : state) :
  isDrawing s = false -> run (moves ps) s = s.
Proof.
  intros Hd. induction ps as [|p ps IH]; [reflexivity|].
  cbn [moves map run fold_left step]. unfold handleDrawMove. rewrite Hd. exact IH.
Qed.

(** X17: a second finger on the canvas cancels the stroke in progress:
    whatever was drawn before it and whatever is drawn after it until
    the fingers are lifted, no stroke is kept. *)
Theorem second_finger_cancels_stroke (s : state) (p0 : point) (now : Z)
    (before after : list point) (touches : nat) (pos : option point) :
  isActive s = true -> (1 < touches)%nat ->
  let s' := run ([DrawStart 1 (Some p0) now] ++ moves before ++ [DrawMove touches pos]
                 ++ moves after ++ [DrawEnd]) s in
  strokes s' = strokes s /\ currentStroke s' = None /\ isDrawing s' = false.
Proof.
  intros Ha Ht s'. unfold s'.
  rewrite !run_app.
  change (run [DrawStart 1 (Some p0) now] s) with (handleDrawStart 1 (Some p0) now s).
  rewrite (run_start p0 now s Ha).
  rewrite (run_moves before _ {| stroke_id := now; stroke_color := strokeColor s;
                                 stroke_size := brushSize s; points := [p0] |});
    try reflexivity.
  rewrite (run_one (DrawMove touches pos)). cbn [step]. unfold handleDrawMove.
  cbn [isDrawing isActive negb orb].
  destruct (Nat.ltb_spec 1 touches); [|lia].
  rewrite run_moves_idle by reflexivity.
  repeat split; reflexivity.
Qed.

Lemma second_finger_cancels_stroke_witness :
  let p a b := {| p_x := a; p_y := b |} in
  let s := step DrawTool.initial EnterDrawMode in
  strokes (run ([DrawStart 1 (Some (p 1 2)) 7] ++ moves [p 3 4] ++ [DrawMove 2 (Some (p 5 6))]
                ++ moves [p 7 8] ++ [DrawEnd])%float s) = [].
Proof.
  intros p s.
  refine (proj1 (second_finger_cancels_stroke s (p 1 2)%float 7 [p 3 4]%float [p 7 8]%float
                   2 (Some (p 5 6)%float) eq_refl _)).
  lia.
Defined.

(** The brush sizes of the tool. *)
Definition known_size (size : string) : Prop := size = "small" \/ size = "medium".

Definition sizes_known (s : state) : Prop :=
  known_size (brushSize s) /\
  (forall cur, currentStroke s = Some cur -> known_size (stroke_size cur)) /\
  Forall (fun st => known_size (stroke_size st)) (strokes s).

Lemma step_sizes_known (s : state) (e : event) : sizes_known s -> sizes_known (step s e).
Proof.
  intros (Hb & Hc & Hs). destruct e; simpl.
  - repeat split; assumption.
  - unfold handleDrawStart.
    destruct (isActive s), (1 <? touches)%nat, pos; simpl;
      repeat split; try assumption.
    intros cur E. inversion E; subst. exact Hb.
  - unfold handleDrawMove.
    destruct (isDrawing s), (isActive s), (1 <? touches)%nat, pos; simpl;
      repeat split; try assumption; try discriminate.
    intros cur E. destruct (currentStroke s) as [prev|]; [|discriminate].
    inversion E; subst. simpl. apply Hc. reflexivity.
  - unfold handleDrawEnd.
    destruct (isDrawing s), (currentStroke s) as [cur|] eqn:E; simpl;
      repeat split; try assumption; try discriminate.
    cbn [strokes]. destruct (length (points cur)) as [|[|n]]; try assumption.
    apply Forall_app. split; [assumption|].
    constructor; [apply Hc; reflexivity | constructor].
  - repeat split; try assumption. simpl.
    destruct (0 <? length (strokes s))%nat; [apply Forall_take|]; assumption.
  - repeat split; try assumption. constructor.
  - repeat split; try assumption. simpl. unfold known_size.
    destruct (String.eqb (brushSize s) "small"); auto.
  - repeat split; assumption.
  - repeat split; try discriminate; [left; reflexivity|].
    simpl. destruct (currentStroke s) as [cur|] eqn:E; [|assumption].
    cbn [strokes]. destruct (length (points cur)) as [|[|n]]; try assumption.
    apply Forall_app. split; [assumption|].
    constructor; [apply Hc; reflexivity | constructor].
Qed.

(** X18: whatever the user does, the brush size of the tool and of every
    stroke it keeps is ['small'] or ['medium']: the tool draws every kept
    stroke 4 or 16 wide, and the export never has to fall back on the
    small width for a stroke of the tool. *)
Theorem kept_strokes_have_known_sizes (events : list event) :
  let s := run events DrawTool.initial in
  known_size (brushSize s) /\
  Forall (fun st =>
            known_size (stroke_size st) /\
            (DrawTool.strokeLineWidth st = 4%float \/ DrawTool.strokeLineWidth st = 16%float) /\
            ExportEngine.BRUSH_SIZES !! stroke_size st <> None) (strokes s).
Proof.
  intros s.
  assert (H : sizes_known s).
  { unfold s, run.
    assert (G : forall s0, sizes_known s0 -> sizes_known (fold_left step events s0)).
    { induction events as [|e es IH]; intros s0 H0; simpl; [exact H0|].
      apply IH, step_sizes_known, H0. }
    apply G. repeat split; try discriminate; [left; reflexivity | constructor]. }
  destruct H as (Hb & _ & Hs). split; [exact Hb|].
  eapply Forall_impl; [exact Hs|]. simpl. intros st Hk. split; [exact Hk|].
  unfold DrawTool.strokeLineWidth.
  destruct Hk as [-> | ->]; split; try (vm_compute; auto; fail); vm_compute; discriminate.
Qed.

End Gestures.

(** ** One look for a text *)

Section TextLooks.
Import Canvas ExportEngine TextLook.





End TextLooks.

(** ** What reaches the raster *)

Section Raster.
Import Canvas ExportEngine.
Variable measureText : font -> string -> float.
Variable scale : float.










End Raster.

Section WholeRaster.
Import Canvas ExportEngine.


End WholeRaster.

(** ** More on the export *)

Section ExportEdges.
Import Canvas ExportEngine.
Local Open Scope float_scope.



(** X24: the scale of an export is never zero and never [NaN]: it is the
    quotient of the raster width by the display width when that is a
    number other than zero, and 1 in every other case. *)
Theorem dpr_is_truthy (width : float) (displayWidth : JS.value) :
  let q := width / JS.ToNumber displayWidth in
  JS.truthy (dpr width displayWidth) = true /\
  is_zero (dpr width displayWidth) = false /\
  is_nan (dpr width displayWidth) = false /\
  (JS.truthy q = true -> dpr width displayWidth = q) /\
  (JS.truthy q = false -> dpr width displayWidth = 1).
Proof.
  intros q. unfold dpr, JS.or_else. fold q.
  destruct (JS.truthy q) eqn:E.
  - repeat split; try assumption; try discriminate;
      unfold JS.truthy in E; destruct (is_zero q), (is_nan q); simpl in E; congruence.
  - repeat split; try reflexivity. discriminate.
Qed.


End ExportEdges.

(** ** Leaving the drawing tool *)

Section LeavingDrawMode.
Import ExportEngine DrawTool.

(** Pointer events only. *)
Definition is_pointer (e : event) : Prop :=
  match e with
  | DrawStart _ _ _ | DrawMove _ _ | DrawEnd => True
  | _ => False
  end.

(** X26: outside draw mode the canvas is dead: with the tool inactive
    and no stroke in progress, no sequence of pointer events changes
    anything. *)
Theorem inactive_tool_ignores_pointer (events : list event) (s : state) :
  isActive s = false -> isDrawing s = false ->
  Forall is_pointer events ->
  run events s = s.
Proof.
  intros Ha Hd H. induction H as [|e events He _ IH]; [reflexivity|].
  cbn [run fold_left]. fold (run events).
  assert (E : step s e = s).
  { destruct e; try contradiction; cbn [step].
    - unfold handleDrawStart. rewrite Ha. reflexivity.
    - unfold handleDrawMove. rewrite Hd. reflexivity.
    - unfold handleDrawEnd. rewrite Hd. destruct s; simpl in *. subst. reflexivity. }
  rewrite E. exact IH.
Qed.

Lemma inactive_tool_ignores_pointer_witness :
  run [DrawStart 1 (Some {| p_x := 1; p_y := 2 |}) 5;
       DrawMove 1 (Some {| p_x := 3; p_y := 4 |}); DrawEnd]%float DrawTool.initial
  = DrawTool.initial.
Proof.
  apply inactive_tool_ignores_pointer; try reflexivity.
  repeat constructor.
Defined.

(** X27: Done never loses the stroke in progress: pressed while a
    finger is still down, it keeps the stroke drawn so far if it has at
    least 2 points, then leaves draw mode with the colour and the brush
    back to white and small and nothing in progress. *)
Theorem done_keeps_stroke_in_progress (s : state) (p0 : point) (ps : list point) (now : Z) :
  isActive s = true ->
  let s' := run ([DrawStart 1 (Some p0) now] ++ moves ps ++ [Done]) s in
  strokes s'
  = match ps with
    | [] => strokes s
    | _ :: _ => strokes s ++ [{| stroke_id := now; stroke_color := strokeColor s;
                                 stroke_size := brushSize s; points := p0 :: ps |}]
    end /\
  isActive s' = false /\ isDrawing s' = false /\ currentStroke s' = None /\
  strokeColor s' = "#FFFFFF" /\ brushSize s' = "small".
Proof.
  intros Ha s'. unfold s'.
  rewrite !run_app.
  change (run [DrawStart 1 (Some p0) now] s) with (handleDrawStart 1 (Some p0) now s).
  rewrite (run_start p0 now s Ha).
  rewrite (run_moves ps _ {| stroke_id := now; stroke_color := strokeColor s;
                             stroke_size := brushSize s; points := [p0] |});
    try reflexivity.
  rewrite run_one. cbn [step]. unfold handleDone.
  cbn [isDrawing currentStroke points stroke_id stroke_color stroke_size strokes
       strokeColor brushSize isActive app].
  destruct ps as [|p ps]; cbn; repeat split; reflexivity.
Qed.

Lemma done_keeps_stroke_in_progress_witness :
  let p a b := {| p_x := a; p_y := b |} in
  let s := step DrawTool.initial EnterDrawMode in
  strokes (run ([DrawStart 1 (Some (p 1 2)) 7] ++ moves [p 3 4] ++ [Done])%float s)
  = [{| stroke_id := 7; stroke_color := "#FFFFFF"; stroke_size := "small";
        points := [p 1 2; p 3 4]%float |}].
Proof.
  intros p s.
  exact (proj1 (done_keeps_stroke_in_progress s (p 1 2)%float [p 3 4]%float 7 eq_refl)).
Defined.

End LeavingDrawMode.

(** ** From the editor to the raster *)

Section AddedThenDrawn.
Import Canvas ExportEngine EditorLayer.

(** The strings written on the raster, filled or outlined. *)
Definition texts_painted (ps : list paint) : list string :=
  flat_map (fun p => match p with
                     | PaintFillText _ t => [t]
                     | PaintStrokeText _ _ t => [t]
                     | _ => []
                     end) ps.

(** The element a handler appended. *)
Definition added (placed : list element) : option element := List.last (map Some placed) None.

(** X28: what the editor adds is what the export writes: the element of
    [handleAddEmoji] is drawn as the emoji that was picked, the element
    of [handleAddSticker] as the label of its sticker, and a saved text
    as its text, in every style; an empty emoji is drawn as the default
    glyph and an empty sticker id as ['sticker']. *)
Theorem added_element_is_drawn (measureText : font -> string -> float) (scale : float)
    (id : string) (width height : float) (placed : list element) :
  (forall emoji el,
     added (handleAddEmoji id emoji width height placed) = Some el ->
     texts_painted (paints Canvas.initial [] [] (drawElement measureText scale el))
     = [if String.eqb emoji "" then default_emoji else emoji]) /\
  (forall stickerId el,
     added (handleAddSticker id stickerId width height placed) = Some el ->
     texts_painted (paints Canvas.initial [] [] (drawElement measureText scale el))
     = [if String.eqb stickerId "" then "sticker" else stickerId]) /\
  (forall txt st el,
     added (handleTextSave None id txt st width height placed) = Some el ->
     texts_painted (paints Canvas.initial [] [] (drawElement measureText scale el))
     = [txt]).
Proof.
  assert (Hlast : forall (l : list element) el, added (l ++ [el]) = Some el).
  { intros l el. unfold added. rewrite map_app. apply last_last. }
  split; [|split].
  - intros emoji el. unfold handleAddEmoji. rewrite Hlast. intros E. inversion E; subst.
    reflexivity.
  - intros stickerId el. unfold handleAddSticker. rewrite Hlast. intros E.
    inversion E; subst. reflexivity.
  - intros txt st el. unfold handleTextSave. rewrite Hlast. intros E. inversion E; subst.
    unfold drawElement. cbn [el_type String.eqb Ascii.eqb Bool.eqb].
    unfold drawText. cbv zeta.
    assert (Et : JS.str_or (Some txt) "" = txt).
    { simpl. destruct (String.eqb_spec txt ""); congruence. }
    cbn [el_data mbind option_bind text with_text]. rewrite Et.
    destruct (JS.is_str _ "stroke"); [reflexivity|].
    destruct (JS.is_str _ "background"); [reflexivity|].
    destruct (JS.is_str _ "highlight"); reflexivity.
Qed.

Lemma added_element_is_drawn_witness :
  texts_painted
    (paints Canvas.initial [] []
       (drawElement (fun _ _ => 10%float) 2%float
          {| el_id := "text-9"; el_type := "text"; el_x := (100 / 2)%float;
             el_y := (60 / 2)%float; el_scale := 1%float; el_rotation := 0%float;
             el_data := Some (with_text None "Hi"
                                {| fontId := Some "serif"; color := Some "#FF3B30";
                                   textAlign := Some "left"; styleMode := Some "stroke" |}) |}))
  = ["Hi"].
Proof.
  refine (proj2 (proj2 (added_element_is_drawn (fun _ _ => 10%float) 2%float "text-9"
                          100%float 60%float [])) "Hi" _ _ _).
  reflexivity.
Defined.

End AddedThenDrawn.
